(** * ctseg: the insert-segment move and the G(tau)/F(tau) measurement

    A shallow embedding of
      - [src/c++/triqs_ctseg/moves/insert_segment.cpp]
        ([attempt], [accept], [reject]) and
      - [src/c++/triqs_ctseg/measures/G_F_tau.cpp]
        (constructor, [accumulate], [collect_results], [fprefactor]).

    C++ [double] is IEEE binary64, modelled by Rocq's primitive [float];
    every arithmetic expression keeps the association of the C++ text.
    Objects held by reference ([wdata], [config], [rng], [results]) become
    fields of the object's record and are passed along explicitly.
    What the two files only use (the time type, the determinant manager,
    the overlap utilities, the random generator, the Green's-function
    containers, MPI) enters through interfaces, one type class each. *)

From Stdlib Require Import ZArith Floats Uint63 Bool Lia.
From Stdlib Require Import Sorted Permutation.
From stdpp Require Import base list.

(** ** Doubles *)

(** [double(n)] for a size or an index. *)
Definition double_of_nat (n : nat) : float :=
  PrimFloat.of_uint63 (Uint63.of_Z (Z.of_nat n)).

(** [std::max(a, b)] is [(a < b) ? b : a]. *)
Definition std_max (a b : float) : float :=
  if (a <? b)%float then b else a.

(** [std::isfinite]. *)
Definition isfinite (x : float) : bool := PrimFloat.is_finite x.

(** ** Imaginary time *)

(** The time type [tau_t] (tau_t.hpp is not among the sources): a point of
    the circle of length beta, with the operators the two files apply to
    it. *)
Class TauOps := {
  tau_t : Type;
  tau_beta : tau_t;                      (* tau_t::beta() *)
  tau_zero : tau_t;                      (* tau_t::zero() *)
  tau_sub : tau_t -> tau_t -> tau_t;     (* operator-, cyclic *)
  tau_eqb : tau_t -> tau_t -> bool;      (* operator== *)
  tau_gtb : tau_t -> tau_t -> bool;      (* operator> *)
  tau_geb : tau_t -> tau_t -> bool;      (* operator>= *)
  tau_ltb : tau_t -> tau_t -> bool;      (* operator< *)
  tau_to_double : tau_t -> float;       (* explicit operator double *)
}.

(** The comparison operators describe one total order: [a >= b] is the
    negation of [a < b]. *)
Class TauOrder (T : TauOps) := {
  tau_geb_ltb : forall a b : tau_t, tau_geb a b = negb (tau_ltb a b);
}.

(** [segment_t{tau_c, tau_cdag}]. *)
Record segment_t {T : TauOps} := Segment {
  tau_c : tau_t;
  tau_cdag : tau_t;
}.

(** [segment_t::length()]: the cyclic difference of the two ends. *)
Definition seg_length {T : TauOps} (s : segment_t) : tau_t :=
  tau_sub (tau_c s) (tau_cdag s).

(** [configuration_t]: one segment list per color. *)
Record configuration_t {T : TauOps} := Configuration {
  seglists : list (list segment_t);
}.

Definition n_color {T : TauOps} (config : configuration_t) : nat :=
  length (seglists config).

(** ** The determinant manager *)

(** One [det_manip] object per color.  Keys are pairs (time, inner index). *)
Class DetOps (T : TauOps) := {
  det_t : Type;
  det_size : det_t -> nat;
  get_x : det_t -> nat -> tau_t * nat;
  get_y : det_t -> nat -> tau_t * nat;
  inverse_matrix : det_t -> nat -> nat -> float;
  try_insert : det_t -> nat -> nat -> tau_t * nat -> tau_t * nat -> float * det_t;
  complete_operation : det_t -> det_t;
  reject_last_try : det_t -> det_t;
  (* no trial is pending *)
  det_idle : det_t -> Prop;
}.

(** The two-phase contract of the manager: rolling a trial back gives the
    state before the trial, and there is nothing to roll back when no trial
    is pending. *)
Class DetRollback {T : TauOps} (D : DetOps T) := {
  reject_after_try : forall d i j x y,
    det_idle d -> reject_last_try (try_insert d i j x y).2 = d;
  reject_when_idle : forall d, det_idle d -> reject_last_try d = d;
}.

(** ** Work data *)

(** Kernels ([wdata.K], [wdata.Kprime], [wdata.Kprime_spin]) and the time
    utilities of the repository that are not among the sources. *)
Class TimeUtils (T : TauOps) := {
  is_full_line : segment_t -> bool;
  (* operator< on segments, the order of a segment list *)
  segment_lt : segment_t -> segment_t -> bool;
  overlap : list segment_t -> segment_t -> float;
  kernel_t : Type;
  (* real(K(t)(a, b)) *)
  kernel_re : kernel_t -> float -> nat -> nat -> float;
  (* K_overlap(seglist, tau_c, tau_cdag, K, c1, c2) *)
  K_overlap : list segment_t -> tau_t -> tau_t -> kernel_t -> nat -> nat -> float;
  (* K_overlap(seglist, tau, is_c, K, c1, c2) *)
  K_overlap1 : list segment_t -> tau_t -> bool -> kernel_t -> nat -> nat -> float;
  (* n_tau(tau, seglist) *)
  n_tau : tau_t -> list segment_t -> float;
  (* lower_bound(f, N, value) *)
  lower_bound : (nat -> tau_t) -> nat -> tau_t -> nat;
  (* std::exp *)
  std_exp : float -> float;
}.

Record work_data_t {T : TauOps} {D : DetOps T} {U : TimeUtils T} := WorkData {
  mu : nat -> float;
  U_int : nat -> nat -> float;          (* wdata.U *)
  has_Dt : bool;
  has_Jperp : bool;
  rot_inv : bool;
  K : kernel_t;
  Kprime : kernel_t;
  Kprime_spin : kernel_t;
  block_to_color : nat -> nat -> nat;
  dets : list det_t;
}.

(** The random generator: [rng(n)] and [tau_t::random(rng, length)]. *)
Class RngOps (T : TauOps) := {
  rng_t : Type;
  rng_int : rng_t -> nat -> nat * rng_t;
  tau_random : rng_t -> tau_t -> tau_t * rng_t;
}.

(** [config_sign], [check_invariant] and the two compile-time switches that
    guard the latter. *)
Class SignOps {T : TauOps} (D : DetOps T) := {
  config_sign : configuration_t -> list det_t -> float;
  (* false when check_invariant aborts *)
  check_invariant : configuration_t -> list det_t -> bool;
  check_invariants : bool;
  ctseg_debug : bool;
}.

(** [operator<] on segments is a strict weak order, as [std::upper_bound]
    asks of it: asymmetric, and two segments that a third one is not
    between are not in order themselves. *)
Class SegmentOrder {T : TauOps} (U : TimeUtils T) := {
  segment_lt_asym : forall a b : segment_t,
    segment_lt a b = true -> segment_lt b a = false;
  segment_lt_incomp : forall a b c : segment_t,
    segment_lt a b = false -> segment_lt b c = false -> segment_lt a c = false;
}.

(** Committing a trial insertion makes the matrix one larger. *)
Class DetGrows {T : TauOps} (D : DetOps T) := {
  size_after_insert : forall d i j x y,
    det_size (complete_operation (try_insert d i j x y).2) = S (det_size d);
}.

(** ** moves/insert_segment.cpp *)

Module moves.
Section InsertSegment.
Context {TO : TauOps} {DO : DetOps TO} {TU : TimeUtils TO} {RO : RngOps TO}
        {SO : SignOps DO}.

(** The move object: the three references and its own members
    [color], [prop_seg] and [det_sign]. *)
Record insert_segment := InsertSegment {
  wdata : work_data_t;
  config : configuration_t;
  rng : rng_t;
  color : nat;
  prop_seg : segment_t;
  det_sign : float;
}.

(** [wdata.dets] replaced, all else kept. *)
Definition set_dets (w : work_data_t) (ds : list det_t) : work_data_t :=
  {| mu := mu w; U_int := U_int w; has_Dt := has_Dt w;
     has_Jperp := has_Jperp w; rot_inv := rot_inv w; K := K w;
     Kprime := Kprime w; Kprime_spin := Kprime_spin w;
     block_to_color := block_to_color w; dets := ds |}.

(** [config.seglists[c]] and [sl[i]].  Indexing past the end is undefined
    in C++; the model then reads an empty list, resp. the segment
    [{zero, zero}], and a write past the end is dropped. *)
Definition seglist_at (config : configuration_t) (c : nat) : list segment_t :=
  default [] (seglists config !! c).

Definition seg_at (sl : list segment_t) (i : nat) : segment_t :=
  default (Segment TO tau_zero tau_zero) (sl !! i).

(** [sl.back()]. *)
Definition seg_back (sl : list segment_t) : segment_t :=
  seg_at sl (length sl - 1).

(** [sl.empty()]. *)
Definition seg_empty (sl : list segment_t) : bool :=
  match sl with [] => true | _ => false end.

(** Lines 48-57: the logarithm of the trace ratio. *)
Definition ln_trace_step (w : work_data_t) (config : configuration_t)
    (color : nat) (seg : segment_t) (acc : float) (c : nat) : float :=
  let acc1 :=
    if negb (c =? color)
    then (acc + (- U_int w color c) * overlap (seglist_at config c) seg)%float
    else acc in
  if has_Dt w
  then (acc1 + K_overlap (seglist_at config c) (tau_c seg) (tau_cdag seg)
                         (K w) color c)%float
  else acc1.

Definition ln_trace_ratio (w : work_data_t) (config : configuration_t)
    (color : nat) (seg : segment_t) : float :=
  let ln0 := (mu w color * tau_to_double (seg_length seg))%float in
  let ln1 := fold_left (ln_trace_step w config color seg)
                       (seq 0 (n_color config)) ln0 in
  if has_Dt w
  then (ln1 + - kernel_re (K w)
                 (tau_to_double (tau_sub (tau_c seg) (tau_cdag seg)))
                 color color)%float
  else ln1.

(** Lines 70-73: the proposition ratio. *)
Definition prop_ratio_of (sl : list segment_t) (window_length : tau_t) : float :=
  let current_number_intervals := std_max 1 (double_of_nat (length sl)) in
  let future_number_segments := (double_of_nat (length sl) + 1)%float in
  (current_number_intervals * tau_to_double window_length
     * tau_to_double window_length
     / (if seg_empty sl then 1 else 2)
     / future_number_segments)%float.

(** The local variables of [attempt] on the path that reaches line 76,
    under their C++ names ([sl_before] is [sl], the list of the chosen
    color); [dt1] and [dt2] are the offsets as drawn on lines 36-37,
    before the swap of line 42. *)
Record attempt_locals := AttemptLocals {
  sl_before : list segment_t;
  wtau_left : tau_t;
  wtau_right : tau_t;
  window_length : tau_t;
  dt1 : tau_t;
  dt2 : tau_t;
  trace_ratio : float;
  det_ratio : float;
  prop_ratio : float;
}.

(** Which [return] of [attempt] was taken. *)
Inductive attempt_path :=
| FullLine                       (* line 23 *)
| EqualTimes                     (* line 40 *)
| Weighed (lv : attempt_locals). (* line 80 *)

(** Lines 18-30: the insertion window [wtau_left, wtau_right]. *)
Definition insertion_window (sl : list segment_t) (rng1 : rng_t)
    : tau_t * tau_t * rng_t :=
  if negb (seg_empty sl) then
    let '(seg_idx, rng2) := rng_int rng1 (length sl) in
    let is_last_segment := seg_idx =? length sl - 1 in
    (tau_cdag (seg_at sl seg_idx),
     tau_c (seg_at sl (if is_last_segment then 0 else seg_idx + 1)),
     rng2)
  else (tau_beta, tau_zero, rng1).

(** Line 33. *)
Definition window_length_of (sl : list segment_t) (wtau_left wtau_right : tau_t)
    : tau_t :=
  if seg_empty sl then tau_beta else tau_sub wtau_left wtau_right.

(** The larger and the smaller of two offsets for [operator>]. *)
Definition tau_max (a b : tau_t) : tau_t := if tau_gtb a b then a else b.
Definition tau_min (a b : tau_t) : tau_t := if tau_gtb a b then b else a.

(** Line 79. *)
Definition det_sign_of (det_ratio : float) : float :=
  if (0 <? det_ratio)%float then 1%float else (-1)%float.

(** Lines 60-66: the trial insertion into [wdata.dets[color]].
    An index past the end of [dets] is undefined in C++; the model then
    takes a NaN ratio and leaves [dets] alone. *)
Definition try_insert_segment (ds : list det_t) (color : nat) (seg : segment_t)
    : float * list det_t :=
  match ds !! color with
  | Some Dc =>
      let det_c_time := fun i => (get_y Dc i).1 in
      let det_cdag_time := fun i => (get_x Dc i).1 in
      let det_index_c := lower_bound det_c_time (det_size Dc) (tau_c seg) in
      let det_index_cdag := lower_bound det_cdag_time (det_size Dc) (tau_cdag seg) in
      let '(det_ratio, Dc') :=
        try_insert Dc det_index_cdag det_index_c (tau_cdag seg, 0) (tau_c seg, 0) in
      (det_ratio, <[color := Dc']> ds)
  | None => (nan, ds)
  end.

(** The object after an early [return 0]: only the generator and
    [color] have moved. *)
Definition after_failure (m : insert_segment) (color : nat) (rng' : rng_t)
    : insert_segment :=
  {| wdata := wdata m; config := config m; rng := rng'; color := color;
     prop_seg := prop_seg m; det_sign := det_sign m |}.

(** [attempt], with the path taken next to the returned value and the
    object after the call. *)
Definition attempt_steps (m : insert_segment)
    : attempt_path * float * insert_segment :=
  let '(color, rng1) := rng_int (rng m) (n_color (config m)) in
  let sl := seglist_at (config m) color in
  if negb (seg_empty sl) && is_full_line (seg_back sl) then
    (FullLine, 0%float, after_failure m color rng1)
  else
    let '(wtau_left, wtau_right, rng2) := insertion_window sl rng1 in
    let window_length := window_length_of sl wtau_left wtau_right in
    let '(dt1, rng3) := tau_random rng2 window_length in
    let '(dt2, rng4) := tau_random rng3 window_length in
    if tau_eqb dt1 dt2 then
      (EqualTimes, 0%float, after_failure m color rng4)
    else
      let '(dt1', dt2') :=
        if tau_gtb dt1 dt2 && negb (seg_empty sl) then (dt2, dt1)
        else (dt1, dt2) in
      let seg := Segment TO (tau_sub wtau_left dt1') (tau_sub wtau_left dt2') in
      let trace_ratio := std_exp (ln_trace_ratio (wdata m) (config m) color seg) in
      let '(det_ratio, dets') := try_insert_segment (dets (wdata m)) color seg in
      let prop_ratio := prop_ratio_of sl window_length in
      let prod := (trace_ratio * det_ratio * prop_ratio)%float in
      let det_sign := det_sign_of det_ratio in
      (Weighed {| sl_before := sl; wtau_left := wtau_left;
                  wtau_right := wtau_right; window_length := window_length;
                  dt1 := dt1; dt2 := dt2; trace_ratio := trace_ratio;
                  det_ratio := det_ratio; prop_ratio := prop_ratio |},
       if isfinite prod then prod else det_sign,
       {| wdata := set_dets (wdata m) dets'; config := config m; rng := rng4;
          color := color; prop_seg := seg; det_sign := det_sign |}).

(** [double insert_segment::attempt()]. *)
Definition attempt (m : insert_segment) : float * insert_segment :=
  let '(_, r, m') := attempt_steps m in (r, m').

(** A call either returns or stops the run ([ALWAYS_EXPECTS]). *)
Inductive outcome (A : Type) :=
| Returns (a : A)
| Aborts.
Global Arguments Returns {A} a.
Global Arguments Aborts {A}.

(** [std::upper_bound(sl.begin(), sl.end(), seg)], the bisection of the
    standard library: [len] elements from [first] on are left to search;
    [middle] is [first + len / 2]; when [seg < *middle] the search goes on
    below [middle], otherwise above it.  [len] shrinks at every turn, so
    [length sl] turns are enough. *)
Fixpoint upper_bound_loop (turns : nat) (sl : list segment_t) (seg : segment_t)
    (first len : nat) : nat :=
  match turns with
  | O => first
  | S turns' =>
      if len =? 0 then first
      else
        let half := len / 2 in
        let middle := first + half in
        if segment_lt seg (seg_at sl middle)
        then upper_bound_loop turns' sl seg first half
        else upper_bound_loop turns' sl seg (middle + 1) (len - half - 1)
  end.

Definition upper_bound (sl : list segment_t) (seg : segment_t) : nat :=
  upper_bound_loop (length sl) sl seg 0 (length sl).

(** [sl.insert(it, seg)]. *)
Definition insert_before (i : nat) (seg : segment_t) (sl : list segment_t)
    : list segment_t :=
  take i sl ++ seg :: drop i sl.

(** [double insert_segment::accept()]. *)
Definition accept (m : insert_segment) : outcome (float * insert_segment) :=
  let initial_sign := config_sign (config m) (dets (wdata m)) in
  let dets' := alter complete_operation (color m) (dets (wdata m)) in
  let sl := seglist_at (config m) (color m) in
  let prop_seg_it := upper_bound sl (prop_seg m) in
  let config' :=
    Configuration TO
      (<[color m := insert_before prop_seg_it (prop_seg m) sl]>
         (seglists (config m))) in
  if (check_invariants || ctseg_debug) && negb (check_invariant config' dets')
  then Aborts
  else
    let final_sign := config_sign config' dets' in
    let sign_ratio := (final_sign / initial_sign)%float in
    if (sign_ratio * det_sign m =? 1)%float then
      Returns (sign_ratio,
               {| wdata := set_dets (wdata m) dets'; config := config';
                  rng := rng m; color := color m; prop_seg := prop_seg m;
                  det_sign := det_sign m |})
    else Aborts.

(** [void insert_segment::reject()]. *)
Definition reject (m : insert_segment) : insert_segment :=
  {| wdata := set_dets (wdata m)
                (alter reject_last_try (color m) (dets (wdata m)));
     config := config m; rng := rng m; color := color m;
     prop_seg := prop_seg m; det_sign := det_sign m |}.

(** *** Reading a configuration

    The vocabulary in which further properties of the move are stated. *)

(** A segment list in the order of [operator<]: no segment is below one
    that comes before it. *)
Definition seg_sorted (sl : list segment_t) : Prop :=
  StronglySorted (fun a b => segment_lt b a = false) sl.

(** What [std::upper_bound] asks of the range: the segments above [seg]
    come after all the others. *)
Definition seg_partitioned (sl : list segment_t) (seg : segment_t) : Prop :=
  forall i j a b, i < j -> sl !! i = Some a -> sl !! j = Some b ->
    segment_lt seg a = true -> segment_lt seg b = true.

(** One determinant manager per color, of the size of the color's segment
    list. *)
Definition sizes_agree (config : configuration_t) (ds : list det_t) : Prop :=
  length ds = n_color config /\
  forall c d, ds !! c = Some d -> det_size d = length (seglist_at config c).

End InsertSegment.
End moves.

(** ** The Green's-function containers and MPI *)

(** What G_F_tau.cpp asks of a [block_gf<imtime>]: the scalars it stores,
    with the three operations applied to them, and the mesh
    [imtime{beta, Fermion, n_tau}] with its bin width and its closest
    point to a time. *)
Class GfOps := {
  value_t : Type;
  val_zero : value_t;
  val_add : value_t -> float -> value_t;       (* z += x *)
  val_div : value_t -> float -> value_t;       (* z / x *)
  val_twice : value_t -> value_t;              (* z *= 2 *)
  mesh_delta : float -> nat -> float;          (* mesh().delta() *)
  closest_mesh_pt : float -> nat -> float -> nat;
}.

(** One block: for every mesh point a matrix, row by row. *)
Definition gf_t {G : GfOps} : Type := list (list (list value_t)).

(** [block_gf<imtime>]: the blocks, over one mesh. *)
Record block_gf {G : GfOps} := BlockGf {
  bg_beta : float;
  bg_n_tau : nat;
  bg_blocks : list gf_t;
}.

(** [mpi::all_reduce(x, c)], one collective after the other on the
    communicator. *)
Class MpiOps (G : GfOps) := {
  communicator : Type;
  all_reduce_double : float -> communicator -> float * communicator;
  all_reduce_gf : block_gf -> communicator -> block_gf * communicator;
}.

(** ** measures/G_F_tau.cpp *)

Module measures.
Section GFtau.
Context {TO : TauOps} {DO : DetOps TO} {TU : TimeUtils TO}
        {GO : GfOps} {MO : MpiOps GO}.

(** The fields of [params_t] the constructor reads; [gf_struct] gives the
    matrix size of every block. *)
Record params_t := Params {
  p_beta : float;
  p_measure_F_tau : bool;
  p_gf_struct : list nat;
  p_n_tau_G : nat;
}.

(** The two fields of [results_t] written here. *)
Record results_t := Results {
  res_G_tau : option block_gf;
  res_F_tau : option block_gf;
}.

(** The measure object: three references, then its own members. *)
Record G_F_tau := GFtau {
  wdata : work_data_t;
  config : configuration_t;
  results : results_t;
  beta : float;
  measure_F_tau : bool;
  gf_struct : list nat;
  G_tau : block_gf;
  F_tau : block_gf;
  Z : float;
}.

(** [block_gf<imtime>{imtime{beta, Fermion, n_tau}, gf_struct}]. *)
Definition make_block_gf (beta : float) (n_tau : nat) (gf_struct : list nat)
    : block_gf :=
  BlockGf GO beta n_tau
    (map (fun sz => replicate n_tau (replicate sz (replicate sz val_zero)))
         gf_struct).

(** Every stored scalar rewritten by [f]. *)
Definition map_values (f : value_t -> value_t) (h : block_gf) : block_gf :=
  BlockGf GO (bg_beta h) (bg_n_tau h)
    (map (map (map (map f))) (bg_blocks h)).

(** [h() = 0]. *)
Definition set_zero (h : block_gf) : block_gf :=
  map_values (fun _ => val_zero) h.

(** The constructor, lines 23-35. *)
Definition construct (p : params_t) (wdata : work_data_t)
    (config : configuration_t) (results : results_t) : G_F_tau :=
  let beta := p_beta p in
  let G_tau := make_block_gf beta (p_n_tau_G p) (p_gf_struct p) in
  let F_tau := make_block_gf beta (p_n_tau_G p) (p_gf_struct p) in
  {| wdata := wdata; config := config; results := results;
     beta := beta;
     measure_F_tau := p_measure_F_tau p && rot_inv wdata;
     gf_struct := p_gf_struct p;
     G_tau := set_zero G_tau;
     F_tau := set_zero F_tau;
     Z := 0%float |}.

(** [fprefactor], lines 97-113. *)
Definition fprefactor_step (w : work_data_t) (color : nat) (tau : tau_t)
    (I_tau : float) (c_sl : nat * list segment_t) : float :=
  let '(c, sl) := c_sl in
  let ntau := n_tau tau sl in
  let I1 := if negb (c =? color) then (I_tau + U_int w c color * ntau)%float
            else I_tau in
  let I2 :=
    if has_Dt w then
      let J := (I1 - K_overlap1 sl tau false (Kprime w) c color)%float in
      if c =? color then (J - 2 * kernel_re (Kprime w) 0 c c)%float else J
    else I1 in
  if has_Jperp w then
    let J := (I2 - 4 * kernel_re (Kprime_spin w) 0 c color * ntau)%float in
    (J - 2 * K_overlap1 sl tau false (Kprime_spin w) c color)%float
  else I2.

Definition fprefactor (o : G_F_tau) (block : nat) (y : tau_t * nat) : float :=
  let color := block_to_color (wdata o) block y.2 in
  fold_left (fprefactor_step (wdata o) color y.1)
            (imap (fun c sl => (c, sl)) (seglists (config o))) 0%float.

(** [g[k](a, b) += v]; nothing is written when an index is out of range
    (undefined in C++). *)
Definition add_entry (g : gf_t) (k a b : nat) (v : float) : gf_t :=
  alter (alter (alter (fun z => val_add z v) b) a) k g.

(** The value and the place of one contribution, lines 54-59. *)
Definition contribution_val (s : float) (det : det_t) (id_y id_x : nat) : float :=
  let y := get_y det id_y in
  let x := get_x det id_x in
  let Minv := inverse_matrix det id_y id_x in
  ((if tau_geb y.1 x.1 then s else - s) * Minv)%float.

Definition contribution_bin (beta : float) (n_tau : nat) (det : det_t)
    (id_y id_x : nat) : nat :=
  let y := get_y det id_y in
  let x := get_x det id_x in
  let dtau := tau_to_double (tau_sub y.1 x.1) in
  closest_mesh_pt beta n_tau dtau.

(** The body of the loop over [id_x], lines 54-60, on the pair of blocks
    [(g, f)]. *)
Definition x_step (o : G_F_tau) (s : float) (det : det_t) (id_y : nat)
    (f_fact : float) (gf : gf_t * gf_t) (id_x : nat) : gf_t * gf_t :=
  let y := get_y det id_y in
  let x := get_x det id_x in
  let val := contribution_val s det id_y id_x in
  let g' := add_entry gf.1
              (contribution_bin (bg_beta (G_tau o)) (bg_n_tau (G_tau o)) det id_y id_x)
              y.2 x.2 val in
  let f' := if measure_F_tau o
            then add_entry gf.2
                   (contribution_bin (bg_beta (F_tau o)) (bg_n_tau (F_tau o)) det id_y id_x)
                   y.2 x.2 (val * f_fact)%float
            else gf.2 in
  (g', f').

(** The body of the loop over [id_y], lines 50-61. *)
Definition y_step (o : G_F_tau) (s : float) (bl_idx : nat) (det : det_t)
    (gf : gf_t * gf_t) (id_y : nat) : gf_t * gf_t :=
  let y := get_y det id_y in
  let f_fact := if measure_F_tau o then fprefactor o bl_idx y else 0%float in
  fold_left (x_step o s det id_y f_fact) (seq 0 (det_size det)) gf.

(** The body of the loop over the determinants, lines 46-62, on the two
    lists of blocks.  A block index past the end of [G_tau] or [F_tau] is
    undefined in C++; the model then skips the determinant. *)
Definition det_step (o : G_F_tau) (s : float)
    (GF : list gf_t * list gf_t) (b_det : nat * det_t) : list gf_t * list gf_t :=
  let '(bl_idx, det) := b_det in
  match GF.1 !! bl_idx, GF.2 !! bl_idx with
  | Some g, Some f =>
      let gf' := fold_left (y_step o s bl_idx det) (seq 0 (det_size det)) (g, f) in
      (<[bl_idx := gf'.1]> GF.1, <[bl_idx := gf'.2]> GF.2)
  | _, _ => GF
  end.

(** [void G_F_tau::accumulate(double s)]. *)
Definition accumulate (s : float) (o : G_F_tau) : G_F_tau :=
  let GF := fold_left (det_step o s)
              (imap (fun b d => (b, d)) (dets (wdata o)))
              (bg_blocks (G_tau o), bg_blocks (F_tau o)) in
  {| wdata := wdata o; config := config o; results := results o;
     beta := beta o; measure_F_tau := measure_F_tau o;
     gf_struct := gf_struct o;
     G_tau := BlockGf GO (bg_beta (G_tau o)) (bg_n_tau (G_tau o)) GF.1;
     F_tau := BlockGf GO (bg_beta (F_tau o)) (bg_n_tau (F_tau o)) GF.2;
     Z := (Z o + s)%float |}.

(** [h / x]: every scalar divided by [x]. *)
Definition gf_div (h : block_gf) (x : float) : block_gf :=
  map_values (fun z => val_div z x) h.

(** [g[k] *= 2] on one block. *)
Definition twice_bin (k : nat) (g : gf_t) : gf_t :=
  alter (map (map val_twice)) k g.

(** Lines 76-79: the points at zero and at beta of every block. *)
Definition fix_ends (h : block_gf) : block_gf :=
  BlockGf GO (bg_beta h) (bg_n_tau h)
    (map (fun g => twice_bin (bg_n_tau h - 1) (twice_bin 0 g)) (bg_blocks h)).

(** What [std::move] leaves behind: the mesh, no block. *)
Definition moved_from (h : block_gf) : block_gf :=
  BlockGf GO (bg_beta h) (bg_n_tau h) [].

(** Lines 72-79 and 84-90: reduce, rescale, fix the end points. *)
Definition normalise (beta Z : float) (h : block_gf) (c : communicator)
    : block_gf * communicator :=
  let '(h1, c1) := all_reduce_gf h c in
  let h2 := gf_div h1 (- beta * Z * mesh_delta (bg_beta h1) (bg_n_tau h1))%float in
  (fix_ends h2, c1).

(** [void G_F_tau::collect_results(mpi::communicator const &c)]. *)
Definition collect_results (o : G_F_tau) (c : communicator)
    : G_F_tau * communicator :=
  let '(Z1, c1) := all_reduce_double (Z o) c in
  let '(G3, c2) := normalise (beta o) Z1 (G_tau o) c1 in
  let results1 := Results (Some G3) (res_F_tau (results o)) in
  if measure_F_tau o then
    let '(F3, c3) := normalise (beta o) Z1 (F_tau o) c2 in
    ({| wdata := wdata o; config := config o;
        results := Results (res_G_tau results1) (Some F3);
        beta := beta o; measure_F_tau := measure_F_tau o;
        gf_struct := gf_struct o;
        G_tau := moved_from G3; F_tau := moved_from F3; Z := Z1 |}, c3)
  else
    ({| wdata := wdata o; config := config o; results := results1;
        beta := beta o; measure_F_tau := measure_F_tau o;
        gf_struct := gf_struct o;
        G_tau := moved_from G3; F_tau := F_tau o; Z := Z1 |}, c2).

(** *** Reading a histogram

    The vocabulary in which the properties of [accumulate] and
    [collect_results] are stated. *)

(** The scalar of block [g] at mesh point [k], row [a], column [b]. *)
Definition entry (g : gf_t) (k a b : nat) : option value_t :=
  match (g : list (list (list value_t))) !! k with
  | Some mat =>
      match mat !! a with
      | Some row => row !! b
      | None => None
      end
  | None => None
  end.

Definition entry_of (h : block_gf) (bl k a b : nat) : option value_t :=
  match bg_blocks h !! bl with
  | Some g => entry g k a b
  | None => None
  end.

(** The pairs [(id_y, id_x)] in the order in which the loops of lines 49
    and 53 visit them. *)
Definition index_pairs (N : nat) : list (nat * nat) :=
  flat_map (fun id_y => map (pair id_y) (seq 0 N)) (seq 0 N).

(** Lines 54-59 for one pair of indices, on the block of [G_tau]. *)
Definition add_contribution (beta : float) (n_tau : nat) (s : float)
    (det : det_t) (g : gf_t) (p : nat * nat) : gf_t :=
  add_entry g (contribution_bin beta n_tau det p.1 p.2)
            (get_y det p.1).2 (get_x det p.2).2
            (contribution_val s det p.1 p.2).

(** The value the specification gives to the matrix entry [(id_y, id_x)]:
    [s * inverse_matrix(id_y, id_x)], the sign flipped when the row key
    is strictly below the column key. *)
Definition claimed_val (s : float) (det : det_t) (id_y id_x : nat) : float :=
  let v := (s * inverse_matrix det id_y id_x)%float in
  if tau_ltb (get_y det id_y).1 (get_x det id_x).1 then (- v)%float else v.

(** The values the specification sends to mesh point [k], row [a],
    column [b], in the order of the loops. *)
Definition claimed_at (beta : float) (n_tau : nat) (s : float) (det : det_t)
    (k a b : nat) : list float :=
  omap (fun p : nat * nat =>
          if (contribution_bin beta n_tau det p.1 p.2 =? k)
             && ((get_y det p.1).2 =? a) && ((get_x det p.2).2 =? b)
          then Some (claimed_val s det p.1 p.2) else None)
       (index_pairs (det_size det)).

(** What lines 73-79 make of a reduced scalar at mesh point [k]. *)
Definition normalised (beta Z delta : float) (n_tau k : nat) (z : value_t)
    : value_t :=
  let z1 := val_div z (- beta * Z * delta)%float in
  let z2 := if k =? 0 then val_twice z1 else z1 in
  if k =? n_tau - 1 then val_twice z2 else z2.

(** The shape of a histogram: for every block and mesh point, the lengths
    of the rows of the matrix. *)
Definition hist_shape (h : block_gf) : list (list (list nat)) :=
  map (map (map length)) (bg_blocks h).

(** Lines 52 and 60 for one pair of indices, on the block of [F_tau]. *)
Definition add_contribution_F (o : G_F_tau) (s : float) (bl : nat)
    (det : det_t) (f : gf_t) (p : nat * nat) : gf_t :=
  add_entry f
    (contribution_bin (bg_beta (F_tau o)) (bg_n_tau (F_tau o)) det p.1 p.2)
    (get_y det p.1).2 (get_x det p.2).2
    (contribution_val s det p.1 p.2 * fprefactor o bl (get_y det p.1))%float.

(** The values that reach mesh point [k], row [a], column [b] of the
    block of [F_tau], in the order of the loops. *)
Definition F_values_at (o : G_F_tau) (s : float) (bl : nat) (det : det_t)
    (k a b : nat) : list float :=
  omap (fun p : nat * nat =>
          if (contribution_bin (bg_beta (F_tau o)) (bg_n_tau (F_tau o)) det p.1 p.2 =? k)
             && ((get_y det p.1).2 =? a) && ((get_x det p.2).2 =? b)
          then Some (contribution_val s det p.1 p.2
                     * fprefactor o bl (get_y det p.1))%float
          else None)
       (index_pairs (det_size det)).

End GFtau.
End measures.

(** ** A simulated world

    A small, fully computable instance of the interfaces: times on a
    grid of 65536 points with wrap-around subtraction, a determinant manager
    that answers from a script and keeps the pending trial apart from the
    committed matrix, a scripted random generator, no interaction
    ([mu = 0], [U = 0], no kernel), real-valued histograms and one peer
    worker whose contributions to the collectives are scripted. *)

Module Sim.

Definition grid : Z := 65536.

(** A grid point as a double, bit by bit (exact below 2^53). *)
Fixpoint pos_to_double (p : positive) : float :=
  match p with
  | xH => 1%float
  | xO q => (2 * pos_to_double q)%float
  | xI q => (2 * pos_to_double q + 1)%float
  end.

Definition grid_to_double (a : Z) : float :=
  match a with
  | Z0 => 0%float
  | Zpos p => pos_to_double p
  | Zneg p => (- pos_to_double p)%float
  end.

#[export] Instance tau16 : TauOps := {|
  tau_t := Z;
  tau_beta := 65535%Z;
  tau_zero := 0%Z;
  tau_sub := fun a b =>
    let d := (a - b)%Z in if (d <? 0)%Z then (d + grid)%Z else d;
  tau_eqb := Z.eqb;
  tau_gtb := Z.gtb;
  tau_geb := Z.geb;
  tau_ltb := Z.ltb;
  tau_to_double := grid_to_double;
|}.

(** The scripted determinant manager. *)
Record sim_det := SimDet {
  sd_x : list (Z * nat);
  sd_y : list (Z * nat);
  sd_minv : list (list float);
  sd_pending : option (nat * nat * (Z * nat) * (Z * nat));
  sd_ratio : float;                  (* the answer of the next try_insert *)
  sd_next_minv : list (list float);  (* the inverse once that trial is committed *)
}.

Definition sim_try_insert (d : sim_det) (i j : nat) (x y : Z * nat)
    : float * sim_det :=
  (sd_ratio d,
   {| sd_x := sd_x d; sd_y := sd_y d; sd_minv := sd_minv d;
      sd_pending := Some (i, j, x, y);
      sd_ratio := sd_ratio d; sd_next_minv := sd_next_minv d |}).

Definition sim_complete (d : sim_det) : sim_det :=
  match sd_pending d with
  | Some (i, j, x, y) =>
      {| sd_x := take i (sd_x d) ++ x :: drop i (sd_x d);
         sd_y := take j (sd_y d) ++ y :: drop j (sd_y d);
         sd_minv := sd_next_minv d;
         sd_pending := None;
         sd_ratio := sd_ratio d; sd_next_minv := sd_next_minv d |}
  | None => d
  end.

Definition sim_reject (d : sim_det) : sim_det :=
  {| sd_x := sd_x d; sd_y := sd_y d; sd_minv := sd_minv d;
     sd_pending := None;
     sd_ratio := sd_ratio d; sd_next_minv := sd_next_minv d |}.

#[export] Instance sim_dets : DetOps tau16 := {|
  det_t := sim_det;
  det_size := fun d => length (sd_x d);
  get_x := fun d i => default (0%Z, 0) (sd_x d !! i);
  get_y := fun d i => default (0%Z, 0) (sd_y d !! i);
  inverse_matrix := fun d i j =>
    default 0%float (default [] (sd_minv d !! i) !! j);
  try_insert := sim_try_insert;
  complete_operation := sim_complete;
  reject_last_try := sim_reject;
  det_idle := fun d => sd_pending d = None;
|}.

(** The first index below [N] at which [f] is not below [value]. *)
Fixpoint sim_lower_bound_from (f : nat -> Z) (value : Z) (i fuel : nat) : nat :=
  match fuel with
  | O => i
  | S fuel' =>
      if (f i <? value)%Z then sim_lower_bound_from f value (S i) fuel' else i
  end.

#[export] Instance sim_utils : TimeUtils tau16 := {|
  is_full_line := fun s => (tau_c s =? 65535)%Z && (tau_cdag s =? 0)%Z;
  segment_lt := fun s1 s2 => (tau_c s1 >? tau_c s2)%Z;
  overlap := fun _ _ => 0%float;
  kernel_t := unit;
  kernel_re := fun _ _ _ _ => 0%float;
  K_overlap := fun _ _ _ _ _ _ => 0%float;
  K_overlap1 := fun _ _ _ _ _ _ => 0%float;
  n_tau := fun _ _ => 0%float;
  lower_bound := fun f N value => sim_lower_bound_from f value 0 N;
  (* without interaction the exponent is 0, and exp(0) = 1 *)
  std_exp := fun x => if (x =? 0)%float then 1%float else nan;
|}.

(** The script of draws: [rng(n)] reduces the next entry modulo [n],
    [tau_t::random] reduces it modulo the window length. *)
#[export] Instance sim_rng : RngOps tau16 := {|
  rng_t := list Z;
  rng_int := fun st n => (Z.to_nat (hd 0%Z st mod Z.of_nat n), tl st);
  tau_random := fun st len => ((hd 0 st mod len)%Z, tl st);
|}.

(** A color counts as negative when its last segment wraps around. *)
Definition sim_color_sign (sl : list (@segment_t tau16)) : float :=
  match last sl with
  | Some s => if (tau_c s <? tau_cdag s)%Z then (-1)%float else 1%float
  | None => 1%float
  end.

#[export] Instance sim_signs : SignOps sim_dets := {|
  config_sign := fun config _ =>
    fold_left (fun acc sl => (acc * sim_color_sign sl)%float) (seglists config) 1%float;
  check_invariant := fun _ _ => true;
  check_invariants := true;
  ctseg_debug := false;
|}.

(** The index of the bin closest to [t], by comparison with the bin
    boundaries. *)
Fixpoint sim_closest_from (delta t : float) (k fuel : nat) : nat :=
  match fuel with
  | O => k
  | S fuel' =>
      if (t <? (double_of_nat k + 0.5) * delta)%float then k
      else sim_closest_from delta t (S k) fuel'
  end.

#[export] Instance sim_gf : GfOps := {|
  value_t := float;
  val_zero := 0%float;
  val_add := PrimFloat.add;
  val_div := PrimFloat.div;
  val_twice := fun z => (z * 2)%float;
  mesh_delta := fun beta n => (beta / double_of_nat (n - 1))%float;
  closest_mesh_pt := fun beta n t =>
    sim_closest_from (beta / double_of_nat (n - 1))%float t 0 (n - 1);
|}.

(** What the peer worker brings to a collective. *)
Inductive payload :=
| PDouble (z : float)
| PGf (h : @block_gf sim_gf).

Definition sum_gf (h h' : @block_gf sim_gf) : @block_gf sim_gf :=
  BlockGf sim_gf (bg_beta h) (bg_n_tau h)
    (zip_with (zip_with (zip_with (zip_with PrimFloat.add)))
              (bg_blocks h) (bg_blocks h')).

#[export] Instance sim_mpi : MpiOps sim_gf := {|
  communicator := list payload;
  all_reduce_double := fun z c =>
    match c with
    | PDouble z' :: c' => ((z + z')%float, c')
    | _ => (z, c)
    end;
  all_reduce_gf := fun h c =>
    match c with
    | PGf h' :: c' => (sum_gf h h', c')
    | _ => (h, c)
    end;
|}.

Definition idle_det (ratio : float) : sim_det :=
  {| sd_x := []; sd_y := []; sd_minv := []; sd_pending := None;
     sd_ratio := ratio; sd_next_minv := [[1%float]] |}.

Definition free_wdata (ds : list sim_det) : @work_data_t tau16 sim_dets sim_utils :=
  {| mu := fun _ => 0%float; U_int := fun _ _ => 0%float;
     has_Dt := false; has_Jperp := false; rot_inv := true;
     K := tt; Kprime := tt; Kprime_spin := tt;
     block_to_color := fun b _ => b; dets := ds |}.

(** A move object over two colors, with a script of draws. *)
Definition move_on (sls : list (list (@segment_t tau16))) (ds : list sim_det)
    (script : list Z) : moves.insert_segment :=
  {| moves.wdata := free_wdata ds;
     moves.config := Configuration tau16 sls;
     moves.rng := script;
     moves.color := 0;
     moves.prop_seg := Segment tau16 0%Z 0%Z;
     moves.det_sign := 1%float |}.

(** Both colors empty; the draws are color 0 and the offsets 20000 and
    10000; the determinant ratio is -1. *)
Definition m_empty : moves.insert_segment :=
  move_on [[]; []] [idle_det (-1); idle_det 1] [0; 20000; 10000]%Z.

(** One determinant of size 1 for the color that holds one segment. *)
Definition one_det (ratio : float) : sim_det :=
  {| sd_x := [(40000%Z, 0)]; sd_y := [(50000%Z, 0)]; sd_minv := [[0.5%float]];
     sd_pending := None; sd_ratio := ratio;
     sd_next_minv := [[1%float; 0%float]; [0%float; 1%float]] |}.

(** Color 0 holds the segment {50000, 40000}; the draws are color 0,
    segment 0 and the offsets 3 and 5. *)
Definition m_one : moves.insert_segment :=
  move_on [[Segment tau16 50000%Z 40000%Z]; []]
          [one_det 2; idle_det 1] [0; 0; 3; 5]%Z.

(** As [m_one], the offsets drawn in the other order. *)
Definition m_one_swapped : moves.insert_segment :=
  move_on [[Segment tau16 50000%Z 40000%Z]; []]
          [one_det 2; idle_det 1] [0; 0; 5; 3]%Z.

(** Color 0 is a full line. *)
Definition m_full : moves.insert_segment :=
  move_on [[Segment tau16 65535%Z 0%Z]; []]
          [one_det 2; idle_det 1] [0; 0; 3; 5]%Z.

(** Both offsets drawn equal. *)
Definition m_equal : moves.insert_segment :=
  move_on [[]; []] [idle_det 1; idle_det 1] [0; 7; 7]%Z.

(** The determinant manager answers NaN. *)
Definition m_nan : moves.insert_segment :=
  move_on [[]; []] [idle_det nan; idle_det 1] [0; 20000; 10000]%Z.

(** The determinant manager answers 0. *)
Definition m_zero : moves.insert_segment :=
  move_on [[]; []] [idle_det 0; idle_det 1] [0; 20000; 10000]%Z.

(** The product overflows: the determinant manager answers the largest
    double and the window is the whole circle. *)
Definition m_huge : moves.insert_segment :=
  move_on [[]; []] [idle_det 0x1.fffffffffffffp+1023; idle_det 1] [0; 20000; 10000]%Z.

(** The product overflows downwards: the determinant manager answers the
    lowest double. *)
Definition m_neg_huge : moves.insert_segment :=
  move_on [[]; []] [idle_det (-0x1.fffffffffffffp+1023); idle_det 1]
          [0; 20000; 10000]%Z.

(** The runs of [attempt] on these objects, evaluated. *)
Definition run_neg_huge := Eval vm_compute in moves.attempt_steps m_neg_huge.
Definition run_empty := Eval vm_compute in moves.attempt_steps m_empty.
Definition run_one := Eval vm_compute in moves.attempt_steps m_one.
Definition run_one_swapped := Eval vm_compute in moves.attempt_steps m_one_swapped.
Definition run_nan := Eval vm_compute in moves.attempt_steps m_nan.
Definition run_zero := Eval vm_compute in moves.attempt_steps m_zero.
Definition run_huge := Eval vm_compute in moves.attempt_steps m_huge.

(** The object after the proposal on two empty colors, and the outcome of
    accepting it. *)
Definition proposed_empty : moves.insert_segment := run_empty.2.
Definition accepted_empty := Eval vm_compute in moves.accept proposed_empty.

(** A measure over one block of size 1 and three mesh points on
    [0, 65535], with one determinant of size 2. *)
Definition two_det : sim_det :=
  {| sd_x := [(10000%Z, 0); (40000%Z, 0)];
     sd_y := [(20000%Z, 0); (50000%Z, 0)];
     sd_minv := [[0.5%float; 0.25%float]; [2%float; 4%float]];
     sd_pending := None; sd_ratio := 1%float; sd_next_minv := [] |}.

Definition sim_params (measure_F : bool) : measures.params_t :=
  measures.Params 65535%float measure_F [1] 3.

Definition sim_measure (measure_F : bool) : measures.G_F_tau :=
  measures.construct (sim_params measure_F) (free_wdata [two_det])
    (Configuration tau16 [[Segment tau16 20000%Z 10000%Z;
                           Segment tau16 50000%Z 40000%Z]])
    (measures.Results None None).

(** The peer worker of a run of two: it brings 1 to [Z] and a histogram
    of ones to [G_tau]. *)
Definition peer : @communicator sim_gf sim_mpi :=
  [PDouble 1;
   PGf (BlockGf sim_gf 65535%float 3 [[[[1%float]]; [[1%float]]; [[1%float]]]])].

(** The object after the proposal on one segment, and the outcome of
    accepting it. *)
Definition proposed_one : moves.insert_segment := run_one.2.
Definition accepted_one := Eval vm_compute in moves.accept proposed_one.

End Sim.

(** * Properties *)

(** ** Facts on doubles *)

(** Comparing equal to 1 is being 1. *)
Lemma eqb_one_eq (x : float) : (x =? 1)%float = true -> x = 1%float.
Proof.
  rewrite FloatAxioms.eqb_spec. intros H. apply Prim2SF_inj.
  change (Prim2SF 1) with (S754_finite false 4503599627370496 (-52)) in *.
  unfold SFeqb, SFcompare in H.
  destruct (Prim2SF x) as [s | s | | s mx ex]; try destruct s; try discriminate.
  destruct (Z.compare ex (-52)) eqn:Ee; try discriminate.
  apply Z.compare_eq in Ee. subst ex.
  destruct (Pos.compare_cont Eq mx 4503599627370496) eqn:Em; try discriminate.
  apply (Pos.compare_eq mx 4503599627370496) in Em. now subst mx.
Qed.

(** Flipping the sign of a factor flips the sign of the product. *)
Lemma opp_mul_l (x y : float) : (- x * y)%float = (- (x * y))%float.
Proof.
  apply Prim2SF_inj.
  rewrite FloatAxioms.mul_spec, !FloatAxioms.opp_spec, FloatAxioms.mul_spec.
  unfold SF64mul, SFmul.
  destruct (Prim2SF x) as [sx | sx | | sx mx ex];
    destruct (Prim2SF y) as [sy | sy | | sy my ey]; cbn [SFopp];
    rewrite ?negb_xorb_l; try reflexivity.
  unfold binary_round_aux.
  destruct (shr_fexp _ _ _ _ _) as [mrs' e'].
  destruct (shr_fexp _ _ _ _ _) as [mrs'' e''].
  destruct (shr_m mrs'') as [|p|p]; cbn [SFopp]; rewrite ?negb_xorb_l;
    try reflexivity.
  destruct (e'' <=? emax - prec)%Z; cbn [SFopp]; now rewrite negb_xorb_l.
Qed.

(** [std::max(1.0, double(N))] on the first sizes: 1 for an empty list
    and for one segment, [N] from there on. *)
Lemma std_max_first_sizes :
  std_max 1 (double_of_nat 0) = 1%float /\
  std_max 1 (double_of_nat 1) = 1%float /\
  std_max 1 (double_of_nat 2) = 2%float /\
  std_max 1 (double_of_nat 3) = 3%float.
Proof. repeat split; reflexivity. Qed.

(** A double that is at most 0 is not above 0. *)
Lemma leb_zero_not_pos (x : float) :
  (x <=? 0)%float = true -> (0 <? x)%float = false.
Proof.
  rewrite FloatAxioms.leb_spec, FloatAxioms.ltb_spec. unfold SFleb, SFltb.
  change (Prim2SF 0) with (S754_zero false).
  destruct (Prim2SF x) as [s | s | | s mx ex]; simpl; try destruct s;
    simpl; congruence.
Qed.

(** A NaN is not above 0. *)
Lemma nan_not_pos (x : float) : is_nan x = true -> (0 <? x)%float = false.
Proof.
  unfold is_nan. rewrite FloatAxioms.eqb_spec, FloatAxioms.ltb_spec.
  unfold SFeqb, SFltb, SFcompare.
  change (Prim2SF 0) with (S754_zero false).
  destruct (Prim2SF x) as [s | s | | s mx ex]; try reflexivity.
  - now destruct s.
  - destruct s; rewrite Z.compare_refl, ?Pos.compare_cont_refl; cbn;
      try discriminate.
    all: rewrite ?Pos.compare_cont_refl; cbn; discriminate.
Qed.

(** ** The insert-segment move *)

Section MoveFacts.
Context {TO : TauOps} {DO : DetOps TO} {TU : TimeUtils TO} {RO : RngOps TO}
        {SO : SignOps DO}.
Import moves.

Lemma set_dets_same (w : work_data_t) : set_dets w (dets w) = w.
Proof. destruct w; reflexivity. Qed.

Lemma set_dets_twice (w : work_data_t) ds ds' :
  set_dets (set_dets w ds) ds' = set_dets w ds'.
Proof. reflexivity. Qed.

Lemma det_sign_of_cases (x : float) :
  det_sign_of x = 1%float \/ det_sign_of x = (-1)%float.
Proof. unfold det_sign_of. destruct (0 <? x)%float; auto. Qed.

(** What the recorded locals stand for, in terms of the draws. *)
Lemma attempt_steps_weighed (m : insert_segment) lv r m' :
  attempt_steps m = (Weighed lv, r, m') ->
  let '(c, g1) := rng_int (rng m) (n_color (config m)) in
  let sl := seglist_at (config m) c in
  let '(wl, wr, g2) := insertion_window sl g1 in
  let wlen := window_length_of sl wl wr in
  let '(d1, g3) := tau_random g2 wlen in
  let '(d2, g4) := tau_random g3 wlen in
  (negb (seg_empty sl) && is_full_line (seg_back sl) = false) /\
  tau_eqb d1 d2 = false /\
  color m' = c /\ rng m' = g4 /\ config m' = config m /\
  sl_before lv = sl /\ wtau_left lv = wl /\ wtau_right lv = wr /\
  window_length lv = wlen /\ dt1 lv = d1 /\ dt2 lv = d2 /\
  trace_ratio lv = std_exp (ln_trace_ratio (wdata m) (config m) c (prop_seg m')) /\
  (det_ratio lv, dets (wdata m')) =
    try_insert_segment (dets (wdata m)) c (prop_seg m') /\
  prop_ratio lv = prop_ratio_of sl wlen /\
  det_sign m' = det_sign_of (det_ratio lv) /\
  prop_seg m' =
    (if tau_gtb d1 d2 && negb (seg_empty sl)
     then Segment TO (tau_sub wl d2) (tau_sub wl d1)
     else Segment TO (tau_sub wl d1) (tau_sub wl d2)) /\
  r = (let prod := (trace_ratio lv * det_ratio lv * prop_ratio lv)%float in
       if isfinite prod then prod else det_sign m') /\
  wdata m' = set_dets (wdata m) (dets (wdata m')).
Proof.
  unfold attempt_steps.
  destruct (rng_int (rng m) (n_color (config m))) as [c g1].
  destruct (negb (seg_empty (seglist_at (config m) c))
            && is_full_line (seg_back (seglist_at (config m) c))) eqn:Efull;
    [discriminate|].
  destruct (insertion_window (seglist_at (config m) c) g1) as [[wl wr] g2].
  destruct (tau_random g2 _) as [d1 g3].
  destruct (tau_random g3 _) as [d2 g4].
  destruct (tau_eqb d1 d2) eqn:Eeq; [discriminate|].
  destruct (tau_gtb d1 d2 && negb (seg_empty (seglist_at (config m) c))) eqn:Esw;
    destruct (try_insert_segment _ c _) as [dr ds'] eqn:Etry;
    intros H; injection H as <- <- <-; cbn;
    rewrite Etry; repeat split; reflexivity.
Qed.

(** The value returned on the weighed path, and the sign stored. *)
Lemma attempt_return_value (m : insert_segment) lv r m' :
  attempt_steps m = (Weighed lv, r, m') ->
  det_sign m' = det_sign_of (det_ratio lv) /\
  r = (if isfinite (trace_ratio lv * det_ratio lv * prop_ratio lv)%float
       then (trace_ratio lv * det_ratio lv * prop_ratio lv)%float
       else det_sign m').
Proof.
  intros H. pose proof (attempt_steps_weighed m lv r m' H) as W.
  destruct (rng_int (rng m) (n_color (config m))) as [c g1].
  cbv zeta in W.
  destruct (insertion_window (seglist_at (config m) c) g1) as [[wl wr] g2].
  destruct (tau_random g2 _) as [d1 g3].
  destruct (tau_random g3 _) as [d2 g4].
  destruct W as (_ & _ & _ & _ & _ & _ & _ & _ & _ & _ & _ & _ & _ & _ & Hs & _ & Hr & _).
  now split.
Qed.

(** Rolling back on a list of idle managers changes nothing. *)
Lemma alter_reject_idle {DR : DetRollback DO} (ds : list det_t) (c : nat) :
  Forall det_idle ds -> alter reject_last_try c ds = ds.
Proof.
  intros Hidle. apply list_eq. intros i.
  destruct (decide (c = i)) as [->|Hne].
  - rewrite list_lookup_alter_eq.
    destruct (ds !! i) as [d|] eqn:Ed; [|reflexivity]. cbn.
    rewrite reject_when_idle; [reflexivity|].
    eapply Forall_lookup_1; eassumption.
  - now rewrite list_lookup_alter_ne.
Qed.

(** Rolling back the trial of lines 60-66 gives the list of managers
    before it. *)
Lemma alter_reject_try {DR : DetRollback DO} (ds : list det_t) (c : nat)
    (seg : segment_t) :
  Forall det_idle ds ->
  alter reject_last_try c (try_insert_segment ds c seg).2 = ds.
Proof.
  intros Hidle. unfold try_insert_segment.
  destruct (ds !! c) as [d|] eqn:Ed.
  - destruct (try_insert d _ _ _ _) as [r d'] eqn:Et. cbn.
    apply list_eq. intros i. destruct (decide (c = i)) as [->|Hne].
    + rewrite list_lookup_alter_eq, list_lookup_insert_eq
        by (eapply lookup_lt_Some; eassumption).
      cbn. rewrite Ed. f_equal.
      replace d' with (try_insert d
        (lower_bound (fun k => (get_x d k).1) (det_size d) (tau_cdag seg))
        (lower_bound (fun k => (get_y d k).1) (det_size d) (tau_c seg))
        (tau_cdag seg, 0) (tau_c seg, 0)).2 by now rewrite Et.
      apply reject_after_try. eapply Forall_lookup_1; eassumption.
    + now rewrite list_lookup_alter_ne, list_lookup_insert_ne.
  - cbn. now apply alter_reject_idle.
Qed.

(** C1: when [accept] returns, the value returned is the sign of the
    configuration after the insertion divided by the sign before it, and
    that ratio times the sign stored by [attempt] is exactly 1; when the
    product is not 1 the call does not return but aborts. *)
Theorem accept_sign_invariant (m : insert_segment) :
  let sl := seglist_at (config m) (color m) in
  let dets' := alter complete_operation (color m) (dets (wdata m)) in
  let config' :=
    Configuration TO
      (<[color m := insert_before (upper_bound sl (prop_seg m)) (prop_seg m) sl]>
         (seglists (config m))) in
  let sign_ratio :=
    (config_sign config' dets' / config_sign (config m) (dets (wdata m)))%float in
  (forall r m', accept m = Returns (r, m') ->
     config m' = config' /\ dets (wdata m') = dets' /\
     r = (config_sign (config m') (dets (wdata m'))
          / config_sign (config m) (dets (wdata m)))%float /\
     (r * det_sign m)%float = 1%float) /\
  ((sign_ratio * det_sign m =? 1)%float = false -> accept m = Aborts).
Proof.
  cbv zeta. unfold accept. split.
  - intros r m'.
    destruct ((check_invariants || ctseg_debug) && negb (check_invariant _ _));
      [discriminate|].
    destruct (_ =? 1)%float eqn:E; [|discriminate].
    intros H. injection H as <- <-. cbn.
    repeat split. now apply eqb_one_eq.
  - intros ->. now destruct ((check_invariants || ctseg_debug) && _).
Qed.

(** C2, as amended: on a non-empty list the smaller offset gives
    [tau_c] (the first field, the creation time of the specification) and
    the larger one [tau_cdag] (the second field, its annihilation time),
    both counted back from [wtau_left]; on an empty list the offsets are
    used as drawn, counted back from beta. *)
Theorem attempt_trial_segment (m : insert_segment) lv r m' :
  attempt_steps m = (Weighed lv, r, m') ->
  (sl_before lv <> [] ->
     tau_c (prop_seg m') = tau_sub (wtau_left lv) (tau_min (dt1 lv) (dt2 lv)) /\
     tau_cdag (prop_seg m') = tau_sub (wtau_left lv) (tau_max (dt1 lv) (dt2 lv))) /\
  (sl_before lv = [] ->
     prop_seg m' = Segment TO (tau_sub tau_beta (dt1 lv)) (tau_sub tau_beta (dt2 lv))).
Proof.
  intros H. pose proof (attempt_steps_weighed m lv r m' H) as W.
  unfold attempt_steps in H.
  destruct (rng_int (rng m) (n_color (config m))) as [c g1].
  cbv zeta in W.
  destruct (insertion_window (seglist_at (config m) c) g1) as [[wl wr] g2] eqn:Ew.
  destruct (tau_random g2 _) as [d1 g3].
  destruct (tau_random g3 _) as [d2 g4].
  destruct W as (_ & _ & _ & _ & _ & -> & -> & _ & _ & -> & -> & _ & _ & _ & _ & Hseg & _ & _).
  rewrite Hseg. unfold tau_min, tau_max. split.
  - intros Hne. destruct (seglist_at (config m) c) as [|s0 sl0]; [congruence|].
    cbn. rewrite andb_true_r. now destruct (tau_gtb d1 d2).
  - intros Hnil. rewrite Hnil in *. cbn in Ew. injection Ew as <- <- <-.
    cbn. now rewrite andb_false_r.
Qed.

(** C3: on the path that reaches line 70 the proposition ratio is
    [(max(1, N) * L * L / d) / (N + 1)], with [N] the number of segments
    of the chosen color before the insertion, [L] the window length and
    [d] equal to 1 for an empty list and to 2 otherwise. *)
Theorem attempt_prop_ratio (m : insert_segment) lv r m' :
  attempt_steps m = (Weighed lv, r, m') ->
  let sl := seglist_at (config m) (color m') in
  let N := double_of_nat (length sl) in
  let L := tau_to_double (window_length lv) in
  let d := if length sl =? 0 then 1%float else 2%float in
  prop_ratio lv = (std_max 1 N * L * L / d / (N + 1))%float.
Proof.
  intros H. pose proof (attempt_steps_weighed m lv r m' H) as W.
  destruct (rng_int (rng m) (n_color (config m))) as [c g1].
  cbv zeta in W.
  destruct (insertion_window (seglist_at (config m) c) g1) as [[wl wr] g2].
  destruct (tau_random g2 _) as [d1 g3].
  destruct (tau_random g3 _) as [d2 g4].
  destruct W as (_ & _ & -> & _ & _ & _ & _ & _ & -> & _ & _ & _ & _ & -> & _).
  cbv zeta. unfold prop_ratio_of.
  now destruct (seglist_at (config m) c).
Qed.

(** C4: on the path that forms the product
    [trace_ratio * det_ratio * prop_ratio], [attempt] returns the product
    when it is finite, and otherwise the sign of the determinant ratio
    alone, as line 79 takes and stores it: 1 for a ratio above 0, -1 for
    any other. *)
Theorem attempt_weight_or_sign (m : insert_segment) lv r m' :
  attempt_steps m = (Weighed lv, r, m') ->
  let prod := (trace_ratio lv * det_ratio lv * prop_ratio lv)%float in
  attempt m = (r, m') /\
  (isfinite prod = true -> r = prod) /\
  (isfinite prod = false ->
     r = det_sign m' /\ (r = 1%float \/ r = (-1)%float) /\
     r = (if (0 <? det_ratio lv)%float then 1%float else (-1)%float)).
Proof.
  intros H. destruct (attempt_return_value m lv r m' H) as [Hs Hr].
  unfold attempt. rewrite H. split; [reflexivity|].
  cbv zeta. rewrite Hr. split; intros ->; [reflexivity|].
  split; [reflexivity|]. rewrite Hs. split; [apply det_sign_of_cases|].
  reflexivity.
Qed.

(** C5: when the chosen color is a full line, or when the two offsets
    drawn are equal, [attempt] returns 0 before the trial insertion of
    lines 60-66: configuration, work data (the determinants with it),
    trial segment and stored sign are those of before the call. *)
Theorem attempt_fails_without_effect (m : insert_segment) :
  let '(c, g1) := rng_int (rng m) (n_color (config m)) in
  let sl := seglist_at (config m) c in
  let '(wl, wr, g2) := insertion_window sl g1 in
  let wlen := window_length_of sl wl wr in
  let '(d1, g3) := tau_random g2 wlen in
  let '(d2, g4) := tau_random g3 wlen in
  (sl <> [] /\ is_full_line (seg_back sl) = true) \/ tau_eqb d1 d2 = true ->
  exists p m',
    attempt_steps m = (p, 0%float, m') /\ attempt m = (0%float, m') /\
    (p = FullLine \/ p = EqualTimes) /\
    config m' = config m /\ wdata m' = wdata m /\
    prop_seg m' = prop_seg m /\ det_sign m' = det_sign m.
Proof.
  unfold attempt, attempt_steps.
  destruct (rng_int (rng m) (n_color (config m))) as [c g1].
  destruct (insertion_window (seglist_at (config m) c) g1) as [[wl wr] g2].
  destruct (tau_random g2 _) as [d1 g3].
  destruct (tau_random g3 _) as [d2 g4].
  cbv zeta. intros Hcase.
  destruct (negb (seg_empty (seglist_at (config m) c))
            && is_full_line (seg_back (seglist_at (config m) c))) eqn:Efull.
  - eexists _, _. repeat split. now left.
  - destruct Hcase as [[Hne Hfl]|Heq].
    + rewrite Hfl, andb_true_r in Efull.
      destruct (seglist_at (config m) c); [congruence|discriminate].
    + rewrite Heq. eexists _, _. repeat split. now right.
Qed.

(** C6: [reject] only rolls back the determinant manager of the chosen
    color: segment lists, trial segment and stored sign are not touched.
    With a manager that keeps its rollback contract, after any [attempt]
    started with no trial pending it gives back the configuration and the
    determinants of before the [attempt], whichever [return] the
    [attempt] took. *)
Theorem reject_restores {DR : DetRollback DO} (m : insert_segment) :
  Forall det_idle (dets (wdata m)) ->
  let m' := (attempt m).2 in
  (config (reject m') = config m' /\
   prop_seg (reject m') = prop_seg m' /\
   det_sign (reject m') = det_sign m' /\
   wdata (reject m') =
     set_dets (wdata m')
       (alter reject_last_try (color m') (dets (wdata m')))) /\
  config (reject m') = config m /\
  wdata (reject m') = wdata m.
Proof.
  intros Hidle. cbv zeta. split; [repeat split|].
  unfold attempt, reject.
  destruct (attempt_steps m) as [[p r] m'] eqn:H. cbn.
  destruct p as [| |lv].
  - unfold attempt_steps in H.
    destruct (rng_int (rng m) (n_color (config m))) as [c g1].
    destruct (negb _ && _).
    + injection H as <- <-. cbn. split; [reflexivity|].
      rewrite alter_reject_idle by assumption. apply set_dets_same.
    + destruct (insertion_window _ _) as [[wl wr] g2].
      destruct (tau_random g2 _) as [d1 g3].
      destruct (tau_random g3 _) as [d2 g4].
      destruct (tau_eqb d1 d2); [discriminate|].
      destruct (if tau_gtb d1 d2 && _ then _ else _).
      destruct (try_insert_segment _ _ _). discriminate.
  - unfold attempt_steps in H.
    destruct (rng_int (rng m) (n_color (config m))) as [c g1].
    destruct (negb _ && _); [discriminate|].
    destruct (insertion_window _ _) as [[wl wr] g2].
    destruct (tau_random g2 _) as [d1 g3].
    destruct (tau_random g3 _) as [d2 g4].
    destruct (tau_eqb d1 d2).
    + injection H as <- <-. cbn. split; [reflexivity|].
      rewrite alter_reject_idle by assumption. apply set_dets_same.
    + destruct (if tau_gtb d1 d2 && _ then _ else _).
      destruct (try_insert_segment _ _ _). discriminate.
  - pose proof (attempt_steps_weighed m lv r m' H) as W.
    destruct (rng_int (rng m) (n_color (config m))) as [c g1].
    cbv zeta in W.
    destruct (insertion_window (seglist_at (config m) c) g1) as [[wl wr] g2].
    destruct (tau_random g2 _) as [d1 g3].
    destruct (tau_random g3 _) as [d2 g4].
    destruct W as (_ & _ & Hc & _ & Hcfg & _ & _ & _ & _ & _ & _ & _ & Htry
                   & _ & _ & _ & _ & Hw).
    split; [assumption|].
    assert (Hd : dets (wdata m') =
                 (try_insert_segment (dets (wdata m)) c (prop_seg m')).2)
      by now rewrite <- Htry.
    rewrite Hw at 1. rewrite set_dets_twice.
    rewrite Hd, Hc, alter_reject_try by assumption.
    apply set_dets_same.
Qed.

(** C10, as amended: the stored sign is 1 exactly when the determinant
    ratio is above 0 and -1 in every other case, that is for a ratio at
    most 0 (0 included) and for a ratio that is not a number; a
    non-finite product makes [attempt] return that sign, never 0. *)
Theorem attempt_det_sign (m : insert_segment) lv r m' :
  attempt_steps m = (Weighed lv, r, m') ->
  ((0 <? det_ratio lv)%float = true -> det_sign m' = 1%float) /\
  ((0 <? det_ratio lv)%float = false -> det_sign m' = (-1)%float) /\
  ((det_ratio lv <=? 0)%float = true -> det_sign m' = (-1)%float) /\
  (is_nan (det_ratio lv) = true -> det_sign m' = (-1)%float) /\
  (isfinite (trace_ratio lv * det_ratio lv * prop_ratio lv)%float = false ->
     r = det_sign m' /\ (r = 1%float \/ r = (-1)%float) /\ r <> 0%float).
Proof.
  intros H. destruct (attempt_return_value m lv r m' H) as [Hs Hr].
  split; [|split; [|split; [|split]]].
  - intros E. now rewrite Hs; unfold det_sign_of; rewrite E.
  - intros E. now rewrite Hs; unfold det_sign_of; rewrite E.
  - intros E. rewrite Hs. unfold det_sign_of.
    now rewrite (leb_zero_not_pos _ E).
  - intros E. rewrite Hs. unfold det_sign_of.
    now rewrite (nan_not_pos _ E).
  - intros E. rewrite E in Hr. subst r. split; [reflexivity|].
    rewrite Hs. split; [apply det_sign_of_cases|].
    intros E0.
    destruct (det_sign_of_cases (det_ratio lv)) as [E1|E1];
      rewrite E1 in E0;
      apply (f_equal (fun x => (x =? 0)%float)) in E0; discriminate.
Qed.

End MoveFacts.

(** ** The G(tau) / F(tau) measure *)

Section MeasureFacts.
Context {TO : TauOps} {DO : DetOps TO} {TU : TimeUtils TO}
        {GO : GfOps} {MO : MpiOps GO}.
Import measures.

(** *** Point updates and point reads *)

Lemma entry_add_entry (g : gf_t) k a b v k' a' b' :
  entry (add_entry g k a b v) k' a' b' =
  if (k =? k') && (a =? a') && (b =? b')
  then (fun z => val_add z v) <$> entry g k' a' b'
  else entry g k' a' b'.
Proof.
  unfold entry, add_entry, gf_t in *.
  destruct (Nat.eqb_spec k k') as [<-|Hk]; cbn [andb].
  2: { now rewrite list_lookup_alter_ne. }
  rewrite list_lookup_alter_eq.
  destruct (g !! k) as [mat|]; cbn.
  2: { now destruct ((a =? a') && (b =? b')). }
  destruct (Nat.eqb_spec a a') as [<-|Ha]; cbn [andb].
  2: { now rewrite list_lookup_alter_ne. }
  rewrite list_lookup_alter_eq.
  destruct (mat !! a) as [row|]; cbn.
  2: { now destruct (b =? b'). }
  destruct (Nat.eqb_spec b b') as [<-|Hb].
  - now rewrite list_lookup_alter_eq.
  - now rewrite list_lookup_alter_ne.
Qed.

Lemma entry_map_values (f : value_t -> value_t) (g : gf_t) k a b :
  entry (map (map (map f)) g) k a b = f <$> entry g k a b.
Proof.
  unfold entry, gf_t in *.
  change (map (map (map f)) g) with (map (map f) <$> g).
  rewrite list_lookup_fmap. destruct (g !! k) as [mat|]; cbn; [|reflexivity].
  change (map (map f) mat) with (map f <$> mat).
  rewrite list_lookup_fmap. destruct (mat !! a) as [row|]; cbn; [|reflexivity].
  change (map f row) with (f <$> row). apply list_lookup_fmap.
Qed.

Lemma entry_twice_bin (j : nat) (g : gf_t) k a b :
  entry (twice_bin j g) k a b =
  (fun z => if k =? j then val_twice z else z) <$> entry g k a b.
Proof.
  unfold entry, twice_bin, gf_t in *.
  destruct (Nat.eqb_spec k j) as [->|Hk].
  - rewrite list_lookup_alter_eq.
    destruct (g !! j) as [mat|]; cbn; [|reflexivity].
    change (map (map val_twice) mat) with (map val_twice <$> mat).
    rewrite list_lookup_fmap. destruct (mat !! a) as [row|]; cbn; [|reflexivity].
    change (map val_twice row) with (val_twice <$> row).
    apply list_lookup_fmap.
  - rewrite list_lookup_alter_ne by congruence.
    destruct (g !! k) as [mat|]; cbn; [|reflexivity].
    destruct (mat !! a) as [row|]; cbn; [|reflexivity].
    now destruct (row !! b).
Qed.

(** *** The loops of [accumulate], seen from [G_tau] *)

Lemma contribution_val_claimed {TOr : TauOrder TO} s det id_y id_x :
  contribution_val s det id_y id_x = claimed_val s det id_y id_x.
Proof.
  unfold contribution_val, claimed_val. rewrite tau_geb_ltb. cbv zeta.
  destruct (tau_ltb _ _); cbn [negb]; [apply opp_mul_l|reflexivity].
Qed.

Lemma x_loop_fst o s det id_y f_fact xs gf :
  (fold_left (x_step o s det id_y f_fact) xs gf).1 =
  fold_left (add_contribution (bg_beta (G_tau o)) (bg_n_tau (G_tau o)) s det)
            (map (pair id_y) xs) gf.1.
Proof.
  revert gf. induction xs as [|id_x xs IH]; intros gf; [reflexivity|].
  cbn [fold_left map]. now rewrite IH.
Qed.

Lemma y_loop_fst o s bl det ys gf :
  (fold_left (y_step o s bl det) ys gf).1 =
  fold_left (add_contribution (bg_beta (G_tau o)) (bg_n_tau (G_tau o)) s det)
            (flat_map (fun id_y => map (pair id_y) (seq 0 (det_size det))) ys)
            gf.1.
Proof.
  revert gf. induction ys as [|id_y ys IH]; intros gf; [reflexivity|].
  cbn [fold_left flat_map]. rewrite IH, fold_left_app. f_equal.
  apply x_loop_fst.
Qed.

(** With the switch off the loops leave the block of [F_tau] alone. *)
Lemma x_loop_snd_off o s det id_y f_fact xs gf :
  measure_F_tau o = false ->
  (fold_left (x_step o s det id_y f_fact) xs gf).2 = gf.2.
Proof.
  intros Hoff. revert gf. induction xs as [|id_x xs IH]; intros gf; [reflexivity|].
  cbn [fold_left]. rewrite IH. unfold x_step. now rewrite Hoff.
Qed.

Lemma y_loop_snd_off o s bl det ys gf :
  measure_F_tau o = false ->
  (fold_left (y_step o s bl det) ys gf).2 = gf.2.
Proof.
  intros Hoff. revert gf. induction ys as [|id_y ys IH]; intros gf; [reflexivity|].
  cbn [fold_left]. rewrite IH. unfold y_step. now apply x_loop_snd_off.
Qed.

Lemma det_loop_snd_off o s (bds : list (nat * det_t)) GF :
  measure_F_tau o = false ->
  (fold_left (det_step o s) bds GF).2 = GF.2.
Proof.
  intros Hoff. revert GF. induction bds as [|[bl det] bds IH]; intros GF;
    [reflexivity|].
  cbn [fold_left]. rewrite IH. unfold det_step.
  destruct (GF.1 !! bl) as [g|]; [|reflexivity].
  destruct (GF.2 !! bl) as [f|] eqn:Ef; [|reflexivity].
  cbn [snd]. rewrite y_loop_snd_off by assumption.
  now apply list_insert_id.
Qed.

(** The loop over the determinants, by induction from the last one. *)
Lemma det_loop_fst o s (ds : list det_t) (Gs Fs : list gf_t) :
  let GF := fold_left (det_step o s) (imap (fun b d => (b, d)) ds) (Gs, Fs) in
  length GF.1 = length Gs /\ length GF.2 = length Fs /\
  (forall bl, length ds <= bl -> GF.1 !! bl = Gs !! bl) /\
  (forall bl det g, ds !! bl = Some det -> Gs !! bl = Some g ->
     is_Some (Fs !! bl) ->
     GF.1 !! bl =
       Some (fold_left
               (add_contribution (bg_beta (G_tau o)) (bg_n_tau (G_tau o)) s det)
               (index_pairs (det_size det)) g)).
Proof.
  induction ds as [|d ds IH] using rev_ind.
  - cbn. repeat split; try reflexivity. intros bl det g H. discriminate.
  - rewrite imap_app, fold_left_app. cbn [imap fold_left].
    cbv zeta in IH.
    destruct (fold_left (det_step o s) (imap (fun b d => (b, d)) ds) (Gs, Fs))
      as [G' F'] eqn:EGF.
    cbn [fst snd] in IH. destruct IH as (HlG & HlF & Hrest & Hdone).
    cbn [compose]. rewrite Nat.add_0_r. rewrite length_app. cbn [length].
    unfold det_step. cbn [fst snd].
    destruct (G' !! length ds) as [g0|] eqn:Eg0;
      [destruct (F' !! length ds) as [f0|] eqn:Ef0|].
    + cbn [fst snd]. rewrite !length_insert.
      split; [assumption|]. split; [assumption|]. split.
      * intros bl Hbl. rewrite list_lookup_insert_ne by lia.
        apply Hrest. lia.
      * intros bl det g Hdet Hg HF.
        destruct (decide (bl = length ds)) as [->|Hne].
        -- rewrite list_lookup_insert_eq by (eapply lookup_lt_Some; eassumption).
           rewrite lookup_app_r, Nat.sub_diag in Hdet by lia.
           injection Hdet as <-.
           rewrite Hrest in Eg0 by lia. rewrite Hg in Eg0. injection Eg0 as <-.
           f_equal. apply y_loop_fst.
        -- rewrite list_lookup_insert_ne by congruence.
           apply Hdone; try assumption.
           assert (bl < length (ds ++ [d])) by (eapply lookup_lt_Some; eassumption).
           rewrite length_app in H. cbn in H.
           rewrite lookup_app_l in Hdet by lia. assumption.
    + cbn [fst snd]. split; [assumption|]. split; [assumption|]. split.
      * intros bl Hbl. apply Hrest. lia.
      * intros bl det g Hdet Hg HF.
        destruct (decide (bl = length ds)) as [->|Hne].
        -- exfalso. destruct HF as [f Hf].
           apply lookup_lt_Some in Hf. rewrite <- HlF in Hf.
           apply lookup_lt_is_Some_2 in Hf. rewrite Ef0 in Hf.
           now destruct Hf.
        -- apply Hdone; try assumption.
           assert (bl < length (ds ++ [d])) by (eapply lookup_lt_Some; eassumption).
           rewrite length_app in H. cbn in H.
           rewrite lookup_app_l in Hdet by lia. assumption.
    + cbn [fst snd]. split; [assumption|]. split; [assumption|]. split.
      * intros bl Hbl. apply Hrest. lia.
      * intros bl det g Hdet Hg HF.
        destruct (decide (bl = length ds)) as [->|Hne].
        -- exfalso. rewrite Hrest in Eg0 by lia. congruence.
        -- apply Hdone; try assumption.
           assert (bl < length (ds ++ [d])) by (eapply lookup_lt_Some; eassumption).
           rewrite length_app in H. cbn in H.
           rewrite lookup_app_l in Hdet by lia. assumption.
Qed.

(** Reading one scalar after a run of contributions. *)
Lemma entry_fold_contributions {TOr : TauOrder TO} beta n_tau s det
    (ps : list (nat * nat)) (g : gf_t) k a b :
  entry (fold_left (add_contribution beta n_tau s det) ps g) k a b =
  (fun z =>
     fold_left val_add
       (omap (fun p : nat * nat =>
                if (contribution_bin beta n_tau det p.1 p.2 =? k)
                   && ((get_y det p.1).2 =? a) && ((get_x det p.2).2 =? b)
                then Some (claimed_val s det p.1 p.2) else None) ps) z)
  <$> entry g k a b.
Proof.
  revert g. induction ps as [|p ps IH]; intros g.
  - cbn. now destruct (entry g k a b).
  - cbn [fold_left]. rewrite IH. unfold add_contribution.
    rewrite entry_add_entry, contribution_val_claimed.
    unfold omap. cbn [list_omap].
    destruct (_ && _ && _); [|reflexivity].
    now destruct (entry g k a b).
Qed.

(** What [normalise] publishes, scalar by scalar. *)
Lemma entry_of_normalise beta Z1 (h : block_gf) (c : communicator) :
  let '(h1, c1) := all_reduce_gf h c in
  (normalise beta Z1 h c).2 = c1 /\
  bg_n_tau (normalise beta Z1 h c).1 = bg_n_tau h1 /\
  forall bl k a b,
    entry_of (normalise beta Z1 h c).1 bl k a b =
    normalised beta Z1 (mesh_delta (bg_beta h1) (bg_n_tau h1)) (bg_n_tau h1) k
      <$> entry_of h1 bl k a b.
Proof.
  unfold normalise. destruct (all_reduce_gf h c) as [h1 c1].
  cbn [fst snd]. split; [reflexivity|]. split; [reflexivity|].
  intros bl k a b. unfold entry_of, fix_ends, gf_div, map_values.
  cbn [bg_blocks bg_n_tau bg_beta].
  change (map ?f ?l) with (f <$> l) at 1.
  rewrite !list_lookup_fmap. unfold gf_t in *.
  destruct (_ !! bl) as [g|]; simpl; [|reflexivity].
  rewrite !entry_twice_bin, entry_map_values.
  destruct (entry g k a b) as [z|]; simpl; [|reflexivity].
  unfold normalised. reflexivity.
Qed.

(** C7: [accumulate s] adds [s] to [Z]; in the block of [G_tau] of every
    determinant, the scalar at mesh point [k], row [a], column [b] gains,
    in the order of the loops, the value of every matrix entry whose
    closest mesh point is [k] and whose inner indices are [a] and [b]:
    [s * inverse_matrix(id_y, id_x)], the sign flipped exactly when the
    row key is strictly below the column key.  Blocks without a
    determinant are not touched.  (Both histograms are taken to have the
    block, as the constructor builds them.) *)
Theorem accumulate_adds_contributions {TOr : TauOrder TO} (s : float)
    (o : G_F_tau) :
  Z (accumulate s o) = (Z o + s)%float /\
  (forall bl det g,
     dets (wdata o) !! bl = Some det ->
     bg_blocks (G_tau o) !! bl = Some g ->
     is_Some (bg_blocks (F_tau o) !! bl) ->
     forall k a b,
       entry_of (G_tau (accumulate s o)) bl k a b =
       (fun z =>
          fold_left val_add
            (claimed_at (bg_beta (G_tau o)) (bg_n_tau (G_tau o)) s det k a b) z)
       <$> entry g k a b) /\
  (forall bl, length (dets (wdata o)) <= bl ->
     bg_blocks (G_tau (accumulate s o)) !! bl = bg_blocks (G_tau o) !! bl).
Proof.
  split; [reflexivity|].
  pose proof (det_loop_fst o s (dets (wdata o)) (bg_blocks (G_tau o))
                (bg_blocks (F_tau o))) as H.
  cbv zeta in H. destruct H as (_ & _ & Hrest & Hdone). split.
  - intros bl det g Hdet Hg HF k a b.
    unfold entry_of, accumulate. cbn [G_tau bg_blocks].
    rewrite (Hdone bl det g Hdet Hg HF).
    apply entry_fold_contributions.
  - intros bl Hbl. unfold accumulate. cbn [G_tau bg_blocks]. now apply Hrest.
Qed.

(** C8: [collect_results] reduces [Z], then [G_tau], then (when it is
    measured) [F_tau]; every scalar published is the reduced scalar
    divided by [-beta * Z * delta], with the reduced [Z], and then
    doubled at the first mesh point and doubled at the last one (on a mesh
    of a single point the two doublings meet on the same scalar). *)
Theorem collect_results_pipeline (o : G_F_tau) (c : communicator) :
  let '(Z1, c1) := all_reduce_double (Z o) c in
  let '(G1, c2) := all_reduce_gf (G_tau o) c1 in
  let '(F1, c3) := all_reduce_gf (F_tau o) c2 in
  let o' := (collect_results o c).1 in
  Z o' = Z1 /\
  (exists G3,
     res_G_tau (results o') = Some G3 /\
     forall bl k a b,
       entry_of G3 bl k a b =
       normalised (beta o) Z1 (mesh_delta (bg_beta G1) (bg_n_tau G1))
                  (bg_n_tau G1) k
         <$> entry_of G1 bl k a b) /\
  (measure_F_tau o = true ->
     (collect_results o c).2 = c3 /\
     exists F3,
       res_F_tau (results o') = Some F3 /\
       forall bl k a b,
         entry_of F3 bl k a b =
         normalised (beta o) Z1 (mesh_delta (bg_beta F1) (bg_n_tau F1))
                    (bg_n_tau F1) k
           <$> entry_of F1 bl k a b) /\
  (measure_F_tau o = false -> (collect_results o c).2 = c2).
Proof.
  unfold collect_results.
  destruct (all_reduce_double (Z o) c) as [Z1 c1].
  pose proof (entry_of_normalise (beta o) Z1 (G_tau o) c1) as HG.
  destruct (all_reduce_gf (G_tau o) c1) as [G1 c2].
  destruct HG as (HGc & _ & HGe).
  destruct (normalise (beta o) Z1 (G_tau o) c1) as [G3 c2'].
  cbn [fst snd] in HGc, HGe. subst c2'.
  pose proof (entry_of_normalise (beta o) Z1 (F_tau o) c2) as HF.
  destruct (all_reduce_gf (F_tau o) c2) as [F1 c3].
  destruct HF as (HFc & _ & HFe).
  destruct (normalise (beta o) Z1 (F_tau o) c2) as [F3 c3'].
  cbn [fst snd] in HFc, HFe. subst c3'.
  destruct (measure_F_tau o); cbn [fst snd Z results res_G_tau res_F_tau].
  - split; [reflexivity|]. split; [now exists G3|].
    split; [|discriminate]. intros _. split; [reflexivity|]. now exists F3.
  - split; [reflexivity|]. split; [now exists G3|].
    split; [discriminate|]. reflexivity.
Qed.

(** C9, as amended: the constructor sets the switch to
    [p.measure_F_tau and wdata.rot_inv] and allocates the second
    histogram, zeroed, whatever the switch; [accumulate] keeps the switch
    and, when it is off, leaves the second histogram as it is;
    [collect_results] then publishes the first histogram only, and
    publishes both when the switch is on. *)
Theorem F_tau_gated (p : params_t) (w : work_data_t) (cfg : configuration_t)
    (res : results_t) :
  let o := construct p w cfg res in
  measure_F_tau o = p_measure_F_tau p && rot_inv w /\
  F_tau o = set_zero (make_block_gf (p_beta p) (p_n_tau_G p) (p_gf_struct p)) /\
  (forall o' s,
     measure_F_tau (accumulate s o') = measure_F_tau o' /\
     (measure_F_tau o' = false -> F_tau (accumulate s o') = F_tau o')) /\
  (forall o' c,
     measure_F_tau o' = false ->
     res_F_tau (results (collect_results o' c).1) = res_F_tau (results o') /\
     is_Some (res_G_tau (results (collect_results o' c).1))) /\
  (forall o' c,
     measure_F_tau o' = true ->
     is_Some (res_F_tau (results (collect_results o' c).1)) /\
     is_Some (res_G_tau (results (collect_results o' c).1))).
Proof.
  cbv zeta. split; [reflexivity|]. split; [reflexivity|]. split; [|split].
  - intros o' s. split; [reflexivity|]. intros Hoff.
    unfold accumulate. cbn [F_tau].
    rewrite det_loop_snd_off by assumption. cbn [snd].
    now destruct (F_tau o').
  - intros o' c Hoff. unfold collect_results.
    destruct (all_reduce_double (Z o') c) as [Z1 c1].
    destruct (normalise (beta o') Z1 (G_tau o') c1) as [G3 c2].
    rewrite Hoff. cbn. split; [reflexivity|]. now eexists.
  - intros o' c Hon. unfold collect_results.
    destruct (all_reduce_double (Z o') c) as [Z1 c1].
    destruct (normalise (beta o') Z1 (G_tau o') c1) as [G3 c2].
    rewrite Hon.
    destruct (normalise (beta o') Z1 (F_tau o') c2) as [F3 c3].
    cbn. split; now eexists.
Qed.

End MeasureFacts.

(** ** Further properties of the insert-segment move *)

Section MoveExtras.
Context {TO : TauOps} {DO : DetOps TO} {TU : TimeUtils TO} {RO : RngOps TO}
        {SO : SignOps DO}.
Import moves.

(** What [accept] returns with, in terms of the object it was called on. *)
Lemma accept_returns (m : insert_segment) r m' :
  accept m = Returns (r, m') ->
  let sl := seglist_at (config m) (color m) in
  seglists (config m') =
    <[color m := insert_before (upper_bound sl (prop_seg m)) (prop_seg m) sl]>
      (seglists (config m)) /\
  dets (wdata m') = alter complete_operation (color m) (dets (wdata m)) /\
  color m' = color m /\ prop_seg m' = prop_seg m.
Proof.
  unfold accept.
  destruct ((check_invariants || ctseg_debug) && negb (check_invariant _ _));
    [discriminate|].
  destruct (_ =? 1)%float; [|discriminate].
  intros H. injection H as <- <-. cbn. repeat split.
Qed.

Lemma insert_before_perm (i : nat) (seg : segment_t) (sl : list segment_t) :
  Permutation (insert_before i seg sl) (seg :: sl).
Proof.
  unfold insert_before. symmetry.
  rewrite <- (take_drop i sl) at 1. apply Permutation_middle.
Qed.

(** The bisection is over within [len] turns: more turns change
    nothing. *)
Lemma upper_bound_loop_turns (sl : list segment_t) (seg : segment_t)
    (turns turns' first len : nat) :
  len <= turns -> len <= turns' ->
  upper_bound_loop turns sl seg first len
  = upper_bound_loop turns' sl seg first len.
Proof.
  revert turns' first len.
  induction turns as [|turns IH]; intros turns' first len H H'.
  - replace len with 0 by lia. now destruct turns'.
  - destruct turns' as [|turns'].
    + replace len with 0 by lia. reflexivity.
    + cbn [upper_bound_loop].
      destruct (Nat.eqb_spec len 0) as [->|Hpos]; [reflexivity|].
      cbv zeta.
      pose proof (Nat.div_lt len 2 ltac:(lia) ltac:(lia)) as Hhalf.
      destruct (segment_lt seg _); apply IH; lia.
Qed.

(** In a sorted list a later segment is never below an earlier one. *)
Lemma seg_sorted_lookup (sl : list segment_t) i j a b :
  seg_sorted sl -> i < j -> sl !! i = Some a -> sl !! j = Some b ->
  segment_lt b a = false.
Proof.
  unfold seg_sorted. intros Hs. revert i j.
  induction Hs as [|x l Hl IH Hall]; intros i j Hij Hi Hj; [discriminate|].
  destruct j as [|j]; [lia|]. cbn in Hj.
  destruct i as [|i]; cbn in Hi.
  - injection Hi as <-. rewrite Forall_lookup in Hall. eapply Hall, Hj.
  - apply (IH i j); [lia|assumption..].
Qed.

(** For a strict weak order, a sorted list is a range as
    [std::upper_bound] asks for, whatever the segment searched. *)
Lemma sorted_partitioned {SOr : SegmentOrder TU} (sl : list segment_t)
    (seg : segment_t) :
  seg_sorted sl -> seg_partitioned sl seg.
Proof.
  intros Hs i j a b Hij Hi Hj Ha.
  destruct (segment_lt seg b) eqn:E; [reflexivity|].
  pose proof (seg_sorted_lookup sl i j a b Hs Hij Hi Hj) as Hba.
  rewrite (segment_lt_incomp seg b a E Hba) in Ha. discriminate.
Qed.

(** The bisection on such a range: no segment before the position found
    is above [seg], every segment from it on is. *)
Lemma upper_bound_loop_spec (sl : list segment_t) (seg : segment_t) :
  seg_partitioned sl seg ->
  forall turns first len,
    len <= turns -> first + len <= length sl ->
    (forall i a, i < first -> sl !! i = Some a -> segment_lt seg a = false) ->
    (forall i a, first + len <= i -> sl !! i = Some a ->
       segment_lt seg a = true) ->
    let p := upper_bound_loop turns sl seg first len in
    p <= length sl /\
    (forall i a, i < p -> sl !! i = Some a -> segment_lt seg a = false) /\
    (forall i a, p <= i -> sl !! i = Some a -> segment_lt seg a = true).
Proof.
  intros Hpart turns.
  induction turns as [|turns IH]; intros first len Hturns Hlen Hlow Hhigh.
  - cbn. replace len with 0 in * by lia.
    split; [lia|]. split; [assumption|].
    intros i a Hi. apply Hhigh. lia.
  - cbn [upper_bound_loop].
    destruct (Nat.eqb_spec len 0) as [->|Hpos].
    + split; [lia|]. split; [assumption|].
      intros i a Hi. apply Hhigh. lia.
    + cbv zeta.
      pose proof (Nat.div_lt len 2 ltac:(lia) ltac:(lia)) as Hhalf.
      set (half := len / 2) in *.
      destruct (lookup_lt_is_Some_2 sl (first + half)) as [e He]; [lia|].
      unfold seg_at. rewrite He. cbn [default from_option id].
      destruct (segment_lt seg e) eqn:E.
      * apply IH; try lia; [assumption|].
        intros i a Hi Ha.
        destruct (decide (i = first + half)) as [->|Hne].
        -- rewrite He in Ha. now injection Ha as <-.
        -- apply (Hpart (first + half) i e a); [lia|assumption..].
      * apply IH; try lia.
        -- intros i a Hi Ha.
           destruct (decide (i = first + half)) as [->|Hne].
           ++ rewrite He in Ha. now injection Ha as <-.
           ++ destruct (segment_lt seg a) eqn:Ea; [|reflexivity].
              rewrite (Hpart i (first + half) a e) in E;
                [discriminate|lia|assumption..].
        -- intros i a Hi. apply Hhigh. lia.
Qed.

(** The position found by [std::upper_bound] on a partitioned list. *)
Lemma upper_bound_spec (sl : list segment_t) (seg : segment_t) :
  seg_partitioned sl seg ->
  upper_bound sl seg <= length sl /\
  (forall i a, i < upper_bound sl seg -> sl !! i = Some a ->
     segment_lt seg a = false) /\
  (forall i a, upper_bound sl seg <= i -> sl !! i = Some a ->
     segment_lt seg a = true).
Proof.
  intros Hpart. unfold upper_bound.
  apply (upper_bound_loop_spec sl seg Hpart (length sl) 0 (length sl));
    try lia.
  intros i a Hi Ha. apply lookup_lt_Some in Ha. lia.
Qed.

(** A segment put between the two parts of a sorted list that it
    separates. *)
Lemma sorted_insert_between (R : segment_t -> segment_t -> Prop)
    (l1 l2 : list segment_t) (x : segment_t) :
  StronglySorted R (l1 ++ l2) ->
  Forall (fun a => R a x) l1 -> Forall (R x) l2 ->
  StronglySorted R (l1 ++ x :: l2).
Proof.
  induction l1 as [|a l1 IH]; intros Hs H1 H2.
  - cbn. now constructor.
  - cbn in *. apply StronglySorted_inv in Hs. destruct Hs as [Hs Ha].
    apply Forall_cons in H1. destruct H1 as [Hax H1].
    apply Forall_app in Ha. destruct Ha as [Ha1 Ha2].
    constructor; [now apply IH|].
    apply Forall_app. split; [assumption|]. now constructor.
Qed.

(** Inserting at [std::upper_bound] keeps a sorted list sorted. *)
Lemma insert_upper_bound_sorted {SOr : SegmentOrder TU} (sl : list segment_t)
    (seg : segment_t) :
  seg_sorted sl -> seg_sorted (insert_before (upper_bound sl seg) seg sl).
Proof.
  intros Hs.
  destruct (upper_bound_spec sl seg (sorted_partitioned sl seg Hs))
    as (_ & Hlow & Hhigh).
  unfold seg_sorted, insert_before in *.
  apply sorted_insert_between.
  - now rewrite take_drop.
  - apply Forall_lookup_2. intros i a Ha.
    apply lookup_take_Some in Ha. destruct Ha as [Ha Hi].
    now apply (Hlow i a).
  - apply Forall_lookup_2. intros i a Ha. rewrite lookup_drop in Ha.
    apply segment_lt_asym. apply (Hhigh (upper_bound sl seg + i) a); [lia|].
    assumption.
Qed.

Lemma length_insert_before (i : nat) (seg : segment_t) (sl : list segment_t) :
  length (insert_before i seg sl) = S (length sl).
Proof. apply (Permutation_length (insert_before_perm i seg sl)). Qed.

(** The two early returns of [attempt]. *)
Lemma attempt_steps_failed (m : insert_segment) p r m' :
  attempt_steps m = (p, r, m') ->
  (forall lv, p <> Weighed lv) ->
  r = 0%float /\ exists c g, m' = after_failure m c g.
Proof.
  unfold attempt_steps.
  destruct (rng_int (rng m) (n_color (config m))) as [c g1].
  destruct (negb _ && _).
  - intros H _. injection H as <- <- <-. split; [reflexivity|]. now eexists _, _.
  - destruct (insertion_window _ _) as [[wl wr] g2].
    destruct (tau_random g2 _) as [d1 g3].
    destruct (tau_random g3 _) as [d2 g4].
    destruct (tau_eqb d1 d2).
    + intros H _. injection H as <- <- <-. split; [reflexivity|].
      now eexists _, _.
    + destruct (if tau_gtb d1 d2 && _ then _ else _).
      destruct (try_insert_segment _ _ _).
      intros H Hp. injection H as <- _ _. exfalso. eapply Hp. reflexivity.
Qed.

(** The managers after the trial insertion of lines 60-66. *)
Lemma try_insert_segment_frame (ds : list det_t) (c : nat) (seg : segment_t) :
  length (try_insert_segment ds c seg).2 = length ds /\
  forall c', c' <> c -> (try_insert_segment ds c seg).2 !! c' = ds !! c'.
Proof.
  unfold try_insert_segment. destruct (ds !! c) as [d|]; [|now split].
  destruct (try_insert d _ _ _ _) as [r d']. cbn. split.
  - apply length_insert.
  - intros c' Hne. apply list_lookup_insert_ne. congruence.
Qed.

(** X1: [accept] puts the trial segment into the list of the chosen
    color and commits that color's determinant; the number of colors, the
    other lists and the other determinants are those of before. *)
Theorem accept_inserts_segment (m : insert_segment) r m' :
  accept m = Returns (r, m') ->
  color m < n_color (config m) ->
  Permutation (seglist_at (config m') (color m))
              (prop_seg m :: seglist_at (config m) (color m)) /\
  n_color (config m') = n_color (config m) /\
  dets (wdata m') !! color m = complete_operation <$> dets (wdata m) !! color m /\
  forall c, c <> color m ->
    seglist_at (config m') c = seglist_at (config m) c /\
    dets (wdata m') !! c = dets (wdata m) !! c.
Proof.
  intros H Hc. destruct (accept_returns m r m' H) as (Hs & Hd & _ & _).
  unfold n_color, seglist_at in *. rewrite Hs, Hd. split; [|split; [|split]].
  - rewrite list_lookup_insert_eq by assumption. cbn.
    apply insert_before_perm.
  - apply length_insert.
  - apply list_lookup_alter_eq.
  - intros c Hne. split.
    + now rewrite list_lookup_insert_ne by congruence.
    + apply list_lookup_alter_ne. congruence.
Qed.

(** X2: when [operator<] is a strict weak order and every segment list
    is in that order, every segment list is still in that order after
    [accept]: the bisection of [std::upper_bound] finds a position that
    keeps it. *)
Theorem accept_keeps_sorted {SOr : SegmentOrder TU} (m : insert_segment) r m' :
  accept m = Returns (r, m') ->
  (forall c, seg_sorted (seglist_at (config m) c)) ->
  forall c, seg_sorted (seglist_at (config m') c).
Proof.
  intros H Hsorted c. destruct (accept_returns m r m' H) as (Hs & _).
  unfold seglist_at in *. rewrite Hs.
  destruct (decide (c = color m)) as [->|Hne].
  - destruct (decide (color m < length (seglists (config m)))) as [Hlt|Hge].
    + rewrite list_lookup_insert_eq by assumption. cbn.
      apply insert_upper_bound_sorted. apply Hsorted.
    + rewrite list_insert_ge by lia. apply Hsorted.
  - rewrite list_lookup_insert_ne by congruence. apply Hsorted.
Qed.

(** X3: whichever way it returns, [attempt] leaves the configuration as
    it is and touches nothing of the work data but the determinant of the
    color it drew. *)
Theorem attempt_changes_one_det (m : insert_segment) :
  let m' := (attempt m).2 in
  config m' = config m /\
  set_dets (wdata m') (dets (wdata m)) = wdata m /\
  length (dets (wdata m')) = length (dets (wdata m)) /\
  forall c, c <> color m' -> dets (wdata m') !! c = dets (wdata m) !! c.
Proof.
  cbv zeta. unfold attempt.
  destruct (attempt_steps m) as [[p r] m'] eqn:H. cbn [snd].
  destruct p as [| |lv].
  - destruct (attempt_steps_failed m _ r m' H) as (_ & c & g & ->);
      [discriminate|].
    cbn. repeat split. apply set_dets_same.
  - destruct (attempt_steps_failed m _ r m' H) as (_ & c & g & ->);
      [discriminate|].
    cbn. repeat split. apply set_dets_same.
  - pose proof (attempt_steps_weighed m lv r m' H) as W.
    destruct (rng_int (rng m) (n_color (config m))) as [c g1].
    cbv zeta in W.
    destruct (insertion_window (seglist_at (config m) c) g1) as [[wl wr] g2].
    destruct (tau_random g2 _) as [d1 g3].
    destruct (tau_random g3 _) as [d2 g4].
    destruct W as (_ & _ & Hc & _ & Hcfg & _ & _ & _ & _ & _ & _ & _ & Htry
                   & _ & _ & _ & _ & Hw).
    assert (Hd : dets (wdata m') =
                 (try_insert_segment (dets (wdata m)) c (prop_seg m')).2)
      by now rewrite <- Htry.
    destruct (try_insert_segment_frame (dets (wdata m)) c (prop_seg m'))
      as [Hlen Hother].
    split; [assumption|]. split; [|split].
    + rewrite Hw, set_dets_twice. apply set_dets_same.
    + now rewrite Hd.
    + intros c' Hne. rewrite Hd. apply Hother. congruence.
Qed.

(** The trial segment on an empty line. *)
Lemma prop_seg_on_empty (m : insert_segment) lv r m' :
  attempt_steps m = (Weighed lv, r, m') ->
  sl_before lv = [] ->
  seglist_at (config m) (color m') = [] /\
  config m' = config m /\
  prop_seg m' = Segment TO (tau_sub tau_beta (dt1 lv)) (tau_sub tau_beta (dt2 lv)).
Proof.
  intros H. pose proof (attempt_steps_weighed m lv r m' H) as W.
  destruct (rng_int (rng m) (n_color (config m))) as [c g1].
  cbv zeta in W.
  destruct (insertion_window (seglist_at (config m) c) g1) as [[wl wr] g2] eqn:Ew.
  destruct (tau_random g2 _) as [d1 g3].
  destruct (tau_random g3 _) as [d2 g4].
  destruct W as (_ & _ & -> & _ & Hcfg & -> & _ & _ & _ & -> & -> & _ & _ & _
                 & _ & Hseg & _ & _).
  intros Hnil. rewrite Hnil in *. cbn in Ew. injection Ew as <- <- <-.
  split; [reflexivity|]. split; [assumption|].
  rewrite Hseg. cbn. now rewrite andb_false_r.
Qed.

(** X4: a proposal on an empty line, once accepted, leaves that color
    with the single segment [{beta - dt1, beta - dt2}], the offsets taken
    in the order in which they were drawn. *)
Theorem insert_into_empty_color (m : insert_segment) lv r m' r2 m'' :
  attempt_steps m = (Weighed lv, r, m') ->
  sl_before lv = [] ->
  color m' < n_color (config m) ->
  accept m' = Returns (r2, m'') ->
  seglist_at (config m'') (color m') =
    [Segment TO (tau_sub tau_beta (dt1 lv)) (tau_sub tau_beta (dt2 lv))].
Proof.
  intros H Hnil Hc Ha.
  destruct (prop_seg_on_empty m lv r m' H Hnil) as (Hsl & Hcfg & Hseg).
  destruct (accept_returns m' r2 m'' Ha) as (Hs & _).
  unfold seglist_at, n_color in *. rewrite Hs, Hcfg.
  rewrite list_lookup_insert_eq by assumption. cbn.
  rewrite Hsl, Hseg. reflexivity.
Qed.

(** X5: with a manager whose matrix grows by one on a committed
    insertion, a proposal followed by [accept] keeps one determinant per
    color, each of the size of the color's segment list. *)
Theorem accepted_insert_keeps_sizes {DG : DetGrows DO} (m : insert_segment)
    lv r m' r2 m'' :
  sizes_agree (config m) (dets (wdata m)) ->
  attempt_steps m = (Weighed lv, r, m') ->
  color m' < n_color (config m) ->
  accept m' = Returns (r2, m'') ->
  sizes_agree (config m'') (dets (wdata m'')).
Proof.
  intros [Hlen Hsz] H Hc Ha.
  pose proof (attempt_steps_weighed m lv r m' H) as W.
  destruct (rng_int (rng m) (n_color (config m))) as [c g1].
  cbv zeta in W.
  destruct (insertion_window (seglist_at (config m) c) g1) as [[wl wr] g2].
  destruct (tau_random g2 _) as [d1 g3].
  destruct (tau_random g3 _) as [d2 g4].
  destruct W as (_ & _ & Hcol & _ & Hcfg & _ & _ & _ & _ & _ & _ & _ & Htry & _).
  assert (Hd : dets (wdata m') =
               (try_insert_segment (dets (wdata m)) c (prop_seg m')).2)
    by now rewrite <- Htry.
  clear Htry. subst c.
  destruct (accept_returns m' r2 m'' Ha) as (Hs & Hd' & _ & _).
  set (c := color m') in *.
  destruct (lookup_lt_is_Some_2 (dets (wdata m)) c) as [d Hdc]; [lia|].
  unfold try_insert_segment in Hd. rewrite Hdc in Hd.
  set (i := lower_bound (fun k => (get_x d k).1) (det_size d)
                        (tau_cdag (prop_seg m'))) in Hd.
  set (j := lower_bound (fun k => (get_y d k).1) (det_size d)
                        (tau_c (prop_seg m'))) in Hd.
  pose proof (size_after_insert d i j (tau_cdag (prop_seg m'), 0)
                (tau_c (prop_seg m'), 0)) as Hgrow.
  destruct (try_insert d i j _ _) as [dr d'] eqn:Et. cbn in Hd, Hgrow.
  unfold sizes_agree, n_color, seglist_at in *. rewrite Hs, Hd', Hd, Hcfg.
  split.
  - now rewrite length_alter, !length_insert.
  - intros c' e He.
    destruct (decide (c' = c)) as [->|Hne].
    + rewrite list_lookup_alter_eq, list_lookup_insert_eq in He by lia.
      cbn in He. injection He as <-.
      rewrite list_lookup_insert_eq by assumption. cbn.
      rewrite length_insert_before, Hgrow. f_equal. now apply Hsz.
    + rewrite list_lookup_alter_ne, list_lookup_insert_ne in He by congruence.
      rewrite list_lookup_insert_ne by congruence. now apply Hsz.
Qed.

(** The work data after a rejected proposal. *)
Lemma reject_attempt_wdata {DR : DetRollback DO} (m : insert_segment) :
  Forall det_idle (dets (wdata m)) ->
  wdata (reject (attempt m).2) = wdata m.
Proof.
  intros Hidle. unfold attempt, reject.
  destruct (attempt_steps m) as [[p r] m'] eqn:H. cbn.
  destruct p as [| |lv].
  - destruct (attempt_steps_failed m _ r m' H) as (_ & c & g & ->);
      [discriminate|].
    cbn. rewrite alter_reject_idle by assumption. apply set_dets_same.
  - destruct (attempt_steps_failed m _ r m' H) as (_ & c & g & ->);
      [discriminate|].
    cbn. rewrite alter_reject_idle by assumption. apply set_dets_same.
  - pose proof (attempt_steps_weighed m lv r m' H) as W.
    destruct (rng_int (rng m) (n_color (config m))) as [c g1].
    cbv zeta in W.
    destruct (insertion_window (seglist_at (config m) c) g1) as [[wl wr] g2].
    destruct (tau_random g2 _) as [d1 g3].
    destruct (tau_random g3 _) as [d2 g4].
    destruct W as (_ & _ & Hc & _ & _ & _ & _ & _ & _ & _ & _ & _ & Htry
                   & _ & _ & _ & _ & Hw).
    assert (Hd : dets (wdata m') =
                 (try_insert_segment (dets (wdata m)) c (prop_seg m')).2)
      by now rewrite <- Htry.
    rewrite Hw at 1. rewrite set_dets_twice.
    rewrite Hd, Hc, alter_reject_try by assumption.
    apply set_dets_same.
Qed.

(** X6: after a proposal made with no trial pending, a second [reject]
    changes nothing. *)
Theorem reject_twice {DR : DetRollback DO} (m : insert_segment) :
  Forall det_idle (dets (wdata m)) ->
  reject (reject (attempt m).2) = reject (attempt m).2.
Proof.
  intros Hidle. pose proof (reject_attempt_wdata m Hidle) as Hw.
  destruct (reject (attempt m).2) as [w cfg g c ps ds]. cbn in Hw. subst w.
  unfold reject. cbn. f_equal.
  rewrite alter_reject_idle by assumption. apply set_dets_same.
Qed.

(** X7: on a non-empty list, with an index drawn inside the list, the
    window goes from the [tau_cdag] of the segment drawn to the [tau_c] of
    the next segment of the list, the first one after the last. *)
Theorem insertion_window_successor (sl : list segment_t) (g : rng_t) :
  sl <> [] ->
  (rng_int g (length sl)).1 < length sl ->
  let i := (rng_int g (length sl)).1 in
  exists s s',
    sl !! i = Some s /\ sl !! ((i + 1) mod length sl) = Some s' /\
    insertion_window sl g = (tau_cdag s, tau_c s', (rng_int g (length sl)).2).
Proof.
  intros Hne Hlt. cbv zeta. unfold insertion_window.
  destruct sl as [|s0 sl0]; [congruence|]. cbn [seg_empty negb].
  remember (s0 :: sl0) as sl eqn:Esl. clear Hne Esl s0 sl0.
  destruct (rng_int g (length sl)) as [i g']. cbn [fst snd] in *.
  destruct (lookup_lt_is_Some_2 sl i Hlt) as [s Hs].
  assert (Hmod : (i + 1) mod length sl < length sl)
    by (apply Nat.mod_upper_bound; lia).
  destruct (lookup_lt_is_Some_2 sl _ Hmod) as [s' Hs'].
  exists s, s'. split; [assumption|]. split; [assumption|].
  unfold seg_at. rewrite Hs. cbn [default]. f_equal. f_equal. f_equal.
  destruct (Nat.eqb_spec i (length sl - 1)) as [->|Hi].
  - replace (length sl - 1 + 1) with (length sl) in Hs' by lia.
    rewrite Nat.Div0.mod_same in Hs'. now rewrite Hs'.
  - rewrite Nat.mod_small in Hs' by lia. now rewrite Hs'.
Qed.

Lemma fold_left_ext_in {A B} (f g : A -> B -> A) (l : list B) (a : A) :
  (forall x b, In b l -> f x b = g x b) ->
  fold_left f l a = fold_left g l a.
Proof.
  revert a. induction l as [|b l IH]; intros a Hfg; [reflexivity|].
  cbn. rewrite Hfg by now left. apply IH. intros x b' Hb'. apply Hfg. now right.
Qed.

(** X8: without a retarded kernel, the logarithm of the trace ratio reads
    the chemical potential of the chosen color, the row of [U] of that
    color off the diagonal, and the segment lists of the other colors:
    neither [U(color, color)] nor the list that receives the segment. *)
Theorem ln_trace_ratio_reads_other_colors (w w' : work_data_t)
    (cfg cfg' : configuration_t) (color : nat) (seg : segment_t) :
  has_Dt w = false -> has_Dt w' = false ->
  mu w color = mu w' color ->
  (forall c, c <> color -> U_int w color c = U_int w' color c) ->
  n_color cfg = n_color cfg' ->
  (forall c, c <> color -> seglist_at cfg c = seglist_at cfg' c) ->
  ln_trace_ratio w cfg color seg = ln_trace_ratio w' cfg' color seg.
Proof.
  intros HD HD' Hmu HU Hn Hsl. unfold ln_trace_ratio.
  rewrite HD, HD', Hmu, Hn.
  apply fold_left_ext_in. intros acc c _. unfold ln_trace_step.
  rewrite HD, HD'.
  destruct (Nat.eqb_spec c color) as [->|Hne]; cbn [negb]; [reflexivity|].
  now rewrite HU, Hsl.
Qed.

(** X14: whichever way it returns, [attempt] returns a finite number: 0,
    a finite product, or a sign. *)
Theorem attempt_returns_finite (m : insert_segment) :
  isfinite (attempt m).1 = true.
Proof.
  unfold attempt. destruct (attempt_steps m) as [[p r] m'] eqn:H. cbn [fst].
  destruct p as [| |lv].
  - destruct (attempt_steps_failed m _ r m' H) as (-> & _);
      [discriminate|reflexivity].
  - destruct (attempt_steps_failed m _ r m' H) as (-> & _);
      [discriminate|reflexivity].
  - destruct (attempt_return_value m lv r m' H) as [Hs ->].
    destruct (isfinite (trace_ratio lv * det_ratio lv * prop_ratio lv)%float)
      eqn:E; [assumption|].
    rewrite Hs. now destruct (det_sign_of_cases (det_ratio lv)) as [-> | ->].
Qed.

End MoveExtras.

(** ** Further properties of the G(tau) / F(tau) measure *)

Section MeasureExtras.
Context {TO : TauOps} {DO : DetOps TO} {TU : TimeUtils TO}
        {GO : GfOps} {MO : MpiOps GO}.
Import measures.

(** *** The constructor *)

Lemma entry_replicate (n sz : nat) (z : value_t) k a b :
  entry (replicate n (replicate sz (replicate sz z))) k a b =
  if (k <? n) && (a <? sz) && (b <? sz) then Some z else None.
Proof.
  unfold entry, gf_t in *.
  destruct (Nat.ltb_spec k n) as [Hk|Hk]; cbn [andb].
  2: { now rewrite (proj1 (lookup_replicate_None _ _ _) Hk). }
  rewrite lookup_replicate_2 by assumption.
  destruct (Nat.ltb_spec a sz) as [Ha|Ha]; cbn [andb].
  2: { now rewrite (proj1 (lookup_replicate_None _ _ _) Ha). }
  rewrite lookup_replicate_2 by assumption.
  destruct (Nat.ltb_spec b sz) as [Hb|Hb].
  - now apply lookup_replicate_2.
  - now apply lookup_replicate_None.
Qed.

Lemma entry_of_zeroed (beta : float) (n_tau : nat) (gf_struct : list nat)
    bl k a b :
  entry_of (set_zero (make_block_gf beta n_tau gf_struct)) bl k a b =
  match gf_struct !! bl with
  | Some sz =>
      if (k <? n_tau) && (a <? sz) && (b <? sz) then Some val_zero else None
  | None => None
  end.
Proof.
  unfold entry_of, set_zero, map_values, make_block_gf.
  cbn [bg_blocks].
  change (map ?f ?l) with (f <$> l) at 1. rewrite list_lookup_fmap.
  change (map ?f gf_struct) with (f <$> gf_struct). rewrite list_lookup_fmap.
  destruct (gf_struct !! bl) as [sz|]; simpl; [|reflexivity].
  rewrite entry_map_values, entry_replicate.
  now destruct (_ && _ && _).
Qed.

(** X9: a fresh measure has [Z = 0], and its two histograms hold a zero
    at every mesh point below [n_tau_G] and every row and column below
    the size of the block, and nothing anywhere else. *)
Theorem construct_zero_entries (p : params_t) (w : work_data_t)
    (cfg : configuration_t) (res : results_t) (bl k a b : nat) :
  let o := construct p w cfg res in
  let expected :=
    match p_gf_struct p !! bl with
    | Some sz =>
        if (k <? p_n_tau_G p) && (a <? sz) && (b <? sz)
        then Some val_zero else None
    | None => None
    end in
  entry_of (G_tau o) bl k a b = expected /\
  entry_of (F_tau o) bl k a b = expected /\
  Z o = 0%float.
Proof.
  cbv zeta. unfold construct. cbn [G_tau F_tau Z].
  rewrite entry_of_zeroed. repeat split.
Qed.

(** *** Shapes *)

Lemma fmap_alter_same {A B} (h : A -> B) (F : A -> A) (k : nat) (l : list A) :
  (forall x, h (F x) = h x) -> h <$> alter F k l = h <$> l.
Proof.
  intros H. apply list_eq. intros i. rewrite !list_lookup_fmap.
  destruct (decide (k = i)) as [->|Hne].
  - rewrite list_lookup_alter_eq. destruct (l !! i); cbn; [|reflexivity].
    now rewrite H.
  - now rewrite list_lookup_alter_ne.
Qed.

Lemma shape_add_entry (g : gf_t) k a b v :
  map (map length) (add_entry g k a b v) = map (map length) g.
Proof.
  unfold add_entry, gf_t in *.
  apply (fmap_alter_same (map length)). intros mat.
  apply (fmap_alter_same length). intros row. apply length_alter.
Qed.

Lemma shape_x_loop o s det id_y f_fact xs gf :
  let gf' := fold_left (x_step o s det id_y f_fact) xs gf in
  map (map length) gf'.1 = map (map length) gf.1 /\
  map (map length) gf'.2 = map (map length) gf.2.
Proof.
  cbv zeta. revert gf. induction xs as [|id_x xs IH]; intros gf; [now split|].
  cbn [fold_left]. destruct (IH (x_step o s det id_y f_fact gf id_x)) as [-> ->].
  unfold x_step. cbn [fst snd]. rewrite shape_add_entry. split; [reflexivity|].
  destruct (measure_F_tau o); [apply shape_add_entry|reflexivity].
Qed.

Lemma shape_y_loop o s bl det ys gf :
  let gf' := fold_left (y_step o s bl det) ys gf in
  map (map length) gf'.1 = map (map length) gf.1 /\
  map (map length) gf'.2 = map (map length) gf.2.
Proof.
  cbv zeta. revert gf. induction ys as [|id_y ys IH]; intros gf; [now split|].
  cbn [fold_left]. destruct (IH (y_step o s bl det gf id_y)) as [-> ->].
  unfold y_step. apply shape_x_loop.
Qed.

Lemma shape_insert_same (Gs : list gf_t) (bl : nat) (g g' : gf_t) :
  Gs !! bl = Some g ->
  map (map length) g' = map (map length) g ->
  map (map (map length)) (<[bl := g']> Gs) = map (map (map length)) Gs.
Proof.
  intros Hg Hshape. unfold gf_t in *.
  change (map (map length) <$> <[bl := g']> Gs = map (map length) <$> Gs).
  rewrite list_fmap_insert. apply list_insert_id.
  rewrite list_lookup_fmap, Hg. cbn. now rewrite Hshape.
Qed.

Lemma shape_det_loop o s (bds : list (nat * det_t)) GF :
  let GF' := fold_left (det_step o s) bds GF in
  map (map (map length)) GF'.1 = map (map (map length)) GF.1 /\
  map (map (map length)) GF'.2 = map (map (map length)) GF.2.
Proof.
  cbv zeta. revert GF. induction bds as [|[bl det] bds IH]; intros GF;
    [now split|].
  cbn [fold_left]. destruct (IH (det_step o s GF (bl, det))) as [-> ->].
  unfold det_step.
  destruct (GF.1 !! bl) as [g|] eqn:Eg; [|now split].
  destruct (GF.2 !! bl) as [f|] eqn:Ef; [|now split].
  cbn [fst snd].
  destruct (shape_y_loop o s bl det (seq 0 (det_size det)) (g, f)) as [H1 H2].
  split; eapply shape_insert_same; eassumption.
Qed.

(** X10: [accumulate] keeps the mesh and the shape of both histograms:
    the same blocks, the same mesh points, matrices of the same sizes. *)
Theorem accumulate_keeps_shape (s : float) (o : G_F_tau) :
  hist_shape (G_tau (accumulate s o)) = hist_shape (G_tau o) /\
  hist_shape (F_tau (accumulate s o)) = hist_shape (F_tau o) /\
  bg_n_tau (G_tau (accumulate s o)) = bg_n_tau (G_tau o) /\
  bg_beta (G_tau (accumulate s o)) = bg_beta (G_tau o) /\
  bg_n_tau (F_tau (accumulate s o)) = bg_n_tau (F_tau o) /\
  bg_beta (F_tau (accumulate s o)) = bg_beta (F_tau o).
Proof.
  unfold hist_shape, accumulate. cbn [G_tau F_tau bg_blocks bg_n_tau bg_beta].
  destruct (shape_det_loop o s (imap (fun b d => (b, d)) (dets (wdata o)))
              (bg_blocks (G_tau o), bg_blocks (F_tau o))) as [H1 H2].
  repeat split; assumption.
Qed.

(** *** The loops of [accumulate], seen from [F_tau] *)

Lemma x_loop_snd_on o s bl det id_y xs gf :
  measure_F_tau o = true ->
  (fold_left (x_step o s det id_y (fprefactor o bl (get_y det id_y))) xs gf).2 =
  fold_left (add_contribution_F o s bl det) (map (pair id_y) xs) gf.2.
Proof.
  intros Hon. revert gf. induction xs as [|id_x xs IH]; intros gf; [reflexivity|].
  cbn [fold_left map]. rewrite IH. unfold x_step. cbn [snd]. now rewrite Hon.
Qed.

Lemma y_loop_snd_on o s bl det ys gf :
  measure_F_tau o = true ->
  (fold_left (y_step o s bl det) ys gf).2 =
  fold_left (add_contribution_F o s bl det)
            (flat_map (fun id_y => map (pair id_y) (seq 0 (det_size det))) ys)
            gf.2.
Proof.
  intros Hon. revert gf. induction ys as [|id_y ys IH]; intros gf; [reflexivity|].
  cbn [fold_left flat_map]. rewrite IH, fold_left_app. f_equal.
  unfold y_step. rewrite Hon. now apply x_loop_snd_on.
Qed.

(** The loop over the determinants, with both lists of blocks in view. *)
Lemma det_loop_both o s (ds : list det_t) (Gs Fs : list gf_t) :
  let GF := fold_left (det_step o s) (imap (fun b d => (b, d)) ds) (Gs, Fs) in
  length GF.1 = length Gs /\ length GF.2 = length Fs /\
  (forall bl, length ds <= bl ->
     GF.1 !! bl = Gs !! bl /\ GF.2 !! bl = Fs !! bl) /\
  (forall bl det g f, ds !! bl = Some det -> Gs !! bl = Some g ->
     Fs !! bl = Some f ->
     GF.2 !! bl =
       Some (fold_left (y_step o s bl det) (seq 0 (det_size det)) (g, f)).2).
Proof.
  induction ds as [|d ds IH] using rev_ind.
  - cbn. repeat split; try reflexivity. intros bl det g f H. discriminate.
  - rewrite imap_app, fold_left_app. cbn [imap fold_left].
    cbv zeta in IH.
    destruct (fold_left (det_step o s) (imap (fun b d => (b, d)) ds) (Gs, Fs))
      as [G' F'] eqn:EGF.
    cbn [fst snd] in IH. destruct IH as (HlG & HlF & Hrest & Hdone).
    cbn [compose]. rewrite Nat.add_0_r. rewrite length_app. cbn [length].
    assert (Hold : forall bl det, (ds ++ [d]) !! bl = Some det ->
                     bl <> length ds -> ds !! bl = Some det).
    { intros bl det Hdet Hne.
      assert (bl < length (ds ++ [d])) by (eapply lookup_lt_Some; eassumption).
      rewrite length_app in H. cbn in H.
      rewrite lookup_app_l in Hdet by lia. assumption. }
    unfold det_step. cbn [fst snd].
    destruct (Hrest (length ds) (Nat.le_refl _)) as [HG0 HF0].
    destruct (G' !! length ds) as [g0|] eqn:Eg0;
      [destruct (F' !! length ds) as [f0|] eqn:Ef0|].
    + cbn [fst snd]. rewrite !length_insert.
      split; [assumption|]. split; [assumption|]. split.
      * intros bl Hbl. rewrite !list_lookup_insert_ne by lia.
        apply Hrest. lia.
      * intros bl det g f Hdet Hg Hf.
        destruct (decide (bl = length ds)) as [->|Hne].
        -- rewrite list_lookup_insert_eq by (eapply lookup_lt_Some; eassumption).
           rewrite lookup_app_r, Nat.sub_diag in Hdet by lia.
           injection Hdet as <-.
           rewrite Hg in HG0. injection HG0 as <-.
           rewrite Hf in HF0. injection HF0 as <-. reflexivity.
        -- rewrite list_lookup_insert_ne by congruence.
           apply Hdone; try assumption. now apply Hold.
    + cbn [fst snd]. split; [assumption|]. split; [assumption|]. split.
      * intros bl Hbl. apply Hrest. lia.
      * intros bl det g f Hdet Hg Hf.
        destruct (decide (bl = length ds)) as [->|Hne]; [congruence|].
        apply Hdone; try assumption. now apply Hold.
    + cbn [fst snd]. split; [assumption|]. split; [assumption|]. split.
      * intros bl Hbl. apply Hrest. lia.
      * intros bl det g f Hdet Hg Hf.
        destruct (decide (bl = length ds)) as [->|Hne]; [congruence|].
        apply Hdone; try assumption. now apply Hold.
Qed.

Lemma entry_fold_contributions_F o s bl det (ps : list (nat * nat)) (f : gf_t)
    k a b :
  entry (fold_left (add_contribution_F o s bl det) ps f) k a b =
  (fun z =>
     fold_left val_add
       (omap (fun p : nat * nat =>
                if (contribution_bin (bg_beta (F_tau o)) (bg_n_tau (F_tau o))
                                     det p.1 p.2 =? k)
                   && ((get_y det p.1).2 =? a) && ((get_x det p.2).2 =? b)
                then Some (contribution_val s det p.1 p.2
                           * fprefactor o bl (get_y det p.1))%float
                else None) ps) z)
  <$> entry f k a b.
Proof.
  revert f. induction ps as [|p ps IH]; intros f.
  - cbn. now destruct (entry f k a b).
  - cbn [fold_left]. rewrite IH. unfold add_contribution_F.
    rewrite entry_add_entry.
    unfold omap. cbn [list_omap].
    destruct (_ && _ && _); [|reflexivity].
    now destruct (entry f k a b).
Qed.

(** X11: when F(tau) is measured, [accumulate s] adds to the scalar of
    [F_tau] at mesh point [k], row [a], column [b], in the order of the
    loops, the value [(y.first >= x.first ? s : -s) * Minv] of every matrix
    entry that falls there, times [fprefactor] of the block and of the
    row key. *)
Theorem accumulate_adds_to_F (s : float) (o : G_F_tau) :
  measure_F_tau o = true ->
  forall bl det g f,
    dets (wdata o) !! bl = Some det ->
    bg_blocks (G_tau o) !! bl = Some g ->
    bg_blocks (F_tau o) !! bl = Some f ->
    forall k a b,
      entry_of (F_tau (accumulate s o)) bl k a b =
      (fun z => fold_left val_add (F_values_at o s bl det k a b) z)
      <$> entry f k a b.
Proof.
  intros Hon bl det g f Hdet Hg Hf k a b.
  pose proof (det_loop_both o s (dets (wdata o)) (bg_blocks (G_tau o))
                (bg_blocks (F_tau o))) as H.
  cbv zeta in H. destruct H as (_ & _ & _ & Hdone).
  unfold entry_of, accumulate. cbn [F_tau bg_blocks].
  rewrite (Hdone bl det g f Hdet Hg Hf).
  rewrite y_loop_snd_on by assumption. cbn [snd].
  apply entry_fold_contributions_F.
Qed.

(** *** Empty determinants *)

Lemma det_loop_empty o s (bds : list (nat * det_t)) GF :
  Forall (fun bd => det_size bd.2 = 0) bds ->
  fold_left (det_step o s) bds GF = GF.
Proof.
  intros Hall. revert GF. induction Hall as [|[bl det] bds Hsz _ IH]; intros GF;
    [reflexivity|].
  cbn [fold_left]. rewrite IH. unfold det_step. cbn in Hsz. rewrite Hsz.
  destruct GF as [Gs Fs]. cbn [fst snd seq fold_left].
  destruct (Gs !! bl) as [g|] eqn:Eg; [|reflexivity].
  destruct (Fs !! bl) as [f|] eqn:Ef; [|reflexivity].
  cbn [fst snd]. now rewrite !list_insert_id.
Qed.

(** X12: on a configuration without segments, where every determinant
    has size 0, [accumulate s] adds [s] to [Z] and leaves both histograms
    as they are. *)
Theorem accumulate_without_segments (s : float) (o : G_F_tau) :
  Forall (fun d => det_size d = 0) (dets (wdata o)) ->
  Z (accumulate s o) = (Z o + s)%float /\
  G_tau (accumulate s o) = G_tau o /\
  F_tau (accumulate s o) = F_tau o.
Proof.
  intros Hall. unfold accumulate. cbn [Z G_tau F_tau].
  rewrite det_loop_empty.
  - cbn [fst snd]. split; [reflexivity|].
    split; [now destruct (G_tau o)|now destruct (F_tau o)].
  - apply Forall_forall. intros [bl det] Hin.
    apply elem_of_lookup_imap in Hin. destruct Hin as (i & d & Heq & Hd).
    injection Heq as -> ->. cbn.
    apply (Forall_lookup_1 _ _ _ _ Hall Hd).
Qed.

(** *** [fprefactor] *)

Lemma fprefactor_fold_ext (w : work_data_t) (color : nat) (tau : tau_t)
    (l l' : list (list segment_t)) (n : nat) (acc : float) :
  has_Dt w = false -> has_Jperp w = false ->
  length l = length l' ->
  (forall c, n + c <> color -> l !! c = l' !! c) ->
  fold_left (fprefactor_step w color tau) (imap (fun c sl => (n + c, sl)) l) acc =
  fold_left (fprefactor_step w color tau) (imap (fun c sl => (n + c, sl)) l') acc.
Proof.
  intros HD HJ. revert l' n acc.
  induction l as [|sl l IH]; intros [|sl' l'] n acc Hlen Hsame;
    try discriminate; [reflexivity|].
  rewrite !imap_cons. cbn [fold_left].
  assert (Hstep : fprefactor_step w color tau acc (n + 0, sl) =
                  fprefactor_step w color tau acc (n + 0, sl')).
  { unfold fprefactor_step. rewrite HD, HJ.
    destruct (Nat.eqb_spec (n + 0) color) as [E|E]; cbn [negb]; [reflexivity|].
    specialize (Hsame 0 E). cbn in Hsame. now injection Hsame as ->. }
  rewrite Hstep.
  rewrite (imap_ext _ (fun c sl => (S n + c, sl)) l)
    by (intros; cbn; f_equal; lia).
  rewrite (imap_ext _ (fun c sl => (S n + c, sl)) l')
    by (intros; cbn; f_equal; lia).
  apply IH.
  - cbn in Hlen. lia.
  - intros c Hc. apply (Hsame (S c)). lia.
Qed.

(** X13: without retarded interaction and without spin-flip term, the
    prefactor of F(tau) does not read the segment list of the color of the
    row key itself: two configurations that differ on that color only
    give the same prefactor. *)
Theorem fprefactor_reads_other_colors (o o' : G_F_tau) (block : nat)
    (y : tau_t * nat) :
  wdata o' = wdata o ->
  has_Dt (wdata o) = false -> has_Jperp (wdata o) = false ->
  length (seglists (config o)) = length (seglists (config o')) ->
  (forall c, c <> block_to_color (wdata o) block y.2 ->
     seglists (config o) !! c = seglists (config o') !! c) ->
  fprefactor o block y = fprefactor o' block y.
Proof.
  intros Hw HD HJ Hlen Hsame. unfold fprefactor. rewrite Hw.
  apply (fprefactor_fold_ext (wdata o) _ y.1 _ _ 0); assumption.
Qed.

End MeasureExtras.

(** ** The simulated world keeps the contracts *)

Import Sim.

#[export] Instance sim_tau_order : TauOrder Sim.tau16.
Proof.
  split. intros a b. cbn. rewrite Z.geb_leb, Z.leb_antisym. reflexivity.
Qed.

#[export] Instance sim_rollback : DetRollback Sim.sim_dets.
Proof.
  split.
  - intros [xs ys mi pe ra nm] i j x y Hidle. cbn in *. now subst pe.
  - intros [xs ys mi pe ra nm] Hidle. cbn in *. now subst pe.
Qed.

(** ** The move on the simulated world *)

Lemma run_empty_eq : moves.attempt_steps m_empty = run_empty.
Proof. reflexivity. Qed.

Lemma run_one_eq : moves.attempt_steps m_one = run_one.
Proof. reflexivity. Qed.

Lemma run_one_swapped_eq : moves.attempt_steps m_one_swapped = run_one_swapped.
Proof. reflexivity. Qed.

Lemma run_nan_eq : moves.attempt_steps m_nan = run_nan.
Proof. reflexivity. Qed.

Lemma run_zero_eq : moves.attempt_steps m_zero = run_zero.
Proof. reflexivity. Qed.

Lemma run_huge_eq : moves.attempt_steps m_huge = run_huge.
Proof. reflexivity. Qed.

Lemma accepted_empty_eq : moves.accept proposed_empty = accepted_empty.
Proof. reflexivity. Qed.

(** On two empty colors, with offsets 20000 and 10000 and a determinant
    ratio of -1, the accepted segment {45535, 55535} wraps around: the sign
    goes from 1 to -1, [accept] returns -1 and (-1) * (-1) is 1. *)
Lemma accept_sign_invariant_witness :
  exists r m',
    moves.accept proposed_empty = moves.Returns (r, m') /\
    moves.det_sign proposed_empty = (-1)%float /\
    r = (-1)%float /\
    (r * moves.det_sign proposed_empty)%float = 1%float.
Proof.
  destruct (accept_sign_invariant proposed_empty) as [H _].
  eexists _, _. split; [exact accepted_empty_eq|].
  split; [reflexivity|]. split; [reflexivity|].
  apply (H _ _ accepted_empty_eq).
Defined.

(** C2, the claim as stated fails: color 0 holds one segment, so that
    [wtau_left] is 40000, and the offsets drawn are 3 and 5.  The trial
    segment is {39997, 39995}: [tau_c] is 40000 - 3, the window's left end
    minus the smaller offset, and not 40000 - 5. *)
Lemma nonempty_larger_offset_first_fails :
  exists lv r m',
    moves.attempt_steps m_one = (moves.Weighed lv, r, m') /\
    moves.sl_before lv <> [] /\
    moves.wtau_left lv = 40000%Z /\
    moves.dt1 lv = 3%Z /\ moves.dt2 lv = 5%Z /\
    moves.prop_seg m' = Segment tau16 39997%Z 39995%Z /\
    ~ (tau_c (moves.prop_seg m')
         = tau_sub (moves.wtau_left lv)
                   (moves.tau_max (moves.dt1 lv) (moves.dt2 lv)) /\
       tau_cdag (moves.prop_seg m')
         = tau_sub (moves.wtau_left lv)
                   (moves.tau_min (moves.dt1 lv) (moves.dt2 lv))).
Proof.
  eexists _, _, _. split; [exact run_one_eq|].
  split; [discriminate|]. repeat (split; [reflexivity|]).
  intros [H _]. discriminate H.
Defined.

(** The same draws in the other order, 5 then 3, and an empty list with
    offsets 20000 then 10000. *)
Lemma attempt_trial_segment_witness :
  (exists lv r m',
     moves.attempt_steps m_one_swapped = (moves.Weighed lv, r, m') /\
     tau_c (moves.prop_seg m') = tau_sub 40000%Z 3%Z /\
     tau_cdag (moves.prop_seg m') = tau_sub 40000%Z 5%Z) /\
  (exists lv r m',
     moves.attempt_steps m_empty = (moves.Weighed lv, r, m') /\
     moves.prop_seg m' = Segment tau16 (tau_sub tau_beta 20000%Z)
                                       (tau_sub tau_beta 10000%Z)).
Proof.
  split.
  - eexists _, _, _. split; [exact run_one_swapped_eq|].
    apply (attempt_trial_segment _ _ _ _ run_one_swapped_eq). discriminate.
  - eexists _, _, _. split; [exact run_empty_eq|].
    apply (attempt_trial_segment _ _ _ _ run_empty_eq). reflexivity.
Defined.

(** One segment and a window of length 55536: 1 * 55536 * 55536 / 2 / 2. *)
Lemma attempt_prop_ratio_witness :
  exists lv r m',
    moves.attempt_steps m_one = (moves.Weighed lv, r, m') /\
    moves.prop_ratio lv = 771061824%float.
Proof.
  eexists _, _, _. split; [exact run_one_eq|].
  etransitivity; [apply (attempt_prop_ratio _ _ _ _ run_one_eq)|reflexivity].
Defined.

Lemma run_neg_huge_eq : moves.attempt_steps m_neg_huge = run_neg_huge.
Proof. reflexivity. Qed.

(** A finite product is returned as it is; with the largest double as
    determinant ratio the product overflows and 1 is returned; with the
    lowest double it overflows downwards and -1 is returned. *)
Lemma attempt_weight_or_sign_witness :
  (moves.attempt m_one).1 = (1 * 2 * 771061824)%float /\
  (moves.attempt m_huge).1 = 1%float /\
  (moves.attempt m_neg_huge).1 = (-1)%float.
Proof.
  split; [|split].
  - destruct (attempt_weight_or_sign _ _ _ _ run_one_eq) as (E & Hfin & _).
    rewrite E. apply Hfin. reflexivity.
  - destruct (attempt_weight_or_sign _ _ _ _ run_huge_eq) as (E & _ & Hinf).
    rewrite E. cbn [fst]. destruct (Hinf eq_refl) as (_ & _ & ->).
    reflexivity.
  - destruct (attempt_weight_or_sign _ _ _ _ run_neg_huge_eq)
      as (E & _ & Hinf).
    rewrite E. cbn [fst]. destruct (Hinf eq_refl) as (_ & _ & ->).
    reflexivity.
Defined.

(** A full line, and two equal offsets: 0 is returned and no trial is
    pending afterwards. *)
Lemma attempt_fails_without_effect_witness :
  (exists m', moves.attempt m_full = (0%float, m') /\
              moves.config m' = moves.config m_full /\
              moves.wdata m' = moves.wdata m_full) /\
  (exists m', moves.attempt m_equal = (0%float, m') /\
              moves.config m' = moves.config m_equal /\
              moves.wdata m' = moves.wdata m_equal).
Proof.
  split.
  - destruct (attempt_fails_without_effect m_full)
      as (p & m' & _ & E & _ & Hc & Hw & _).
    + left. split; [discriminate|reflexivity].
    + exists m'. repeat split; assumption.
  - destruct (attempt_fails_without_effect m_equal)
      as (p & m' & _ & E & _ & Hc & Hw & _).
    + right. reflexivity.
    + exists m'. repeat split; assumption.
Defined.

(** After a weighed proposal a trial is pending on color 0; [reject]
    gives back the managers of before the proposal. *)
Lemma reject_restores_witness :
  dets (moves.wdata (moves.attempt m_one).2) <> dets (moves.wdata m_one) /\
  moves.wdata (moves.reject (moves.attempt m_one).2) = moves.wdata m_one /\
  moves.config (moves.reject (moves.attempt m_one).2) = moves.config m_one.
Proof.
  split; [discriminate|].
  assert (Hidle : Forall det_idle (dets (moves.wdata m_one))).
  { repeat constructor. }
  destruct (reject_restores m_one Hidle) as (_ & Hc & Hw).
  split; assumption.
Defined.

(** C10, the claim as stated fails: the determinant manager answers NaN.
    The product is NaN, hence not finite; NaN is not at most 0, and yet
    the value returned is -1, not 1. *)
Lemma nan_ratio_returns_minus_one :
  exists lv r m',
    moves.attempt_steps m_nan = (moves.Weighed lv, r, m') /\
    isfinite (moves.trace_ratio lv * moves.det_ratio lv * moves.prop_ratio lv)%float
      = false /\
    (moves.det_ratio lv <=? 0)%float = false /\
    r = (-1)%float /\ r <> 1%float.
Proof.
  eexists _, _, _. split; [exact run_nan_eq|].
  repeat split. intros E.
  apply (f_equal (fun x => (x <? 0)%float)) in E. discriminate E.
Defined.

(** A determinant ratio of 0 is stored as -1, and so is a NaN. *)
Lemma attempt_det_sign_witness :
  (exists lv r m',
     moves.attempt_steps m_zero = (moves.Weighed lv, r, m') /\
     moves.det_ratio lv = 0%float /\ moves.det_sign m' = (-1)%float) /\
  (exists lv r m',
     moves.attempt_steps m_nan = (moves.Weighed lv, r, m') /\
     is_nan (moves.det_ratio lv) = true /\ moves.det_sign m' = (-1)%float).
Proof.
  split.
  - eexists _, _, _. split; [exact run_zero_eq|].
    split; [reflexivity|].
    destruct (attempt_det_sign _ _ _ _ run_zero_eq) as (_ & _ & Hle & _).
    apply Hle. reflexivity.
  - eexists _, _, _. split; [exact run_nan_eq|].
    split; [reflexivity|].
    destruct (attempt_det_sign _ _ _ _ run_nan_eq) as (_ & _ & _ & Hnan & _).
    apply Hnan. reflexivity.
Defined.

(** ** The measure on the simulated world *)

(** One determinant with row keys 20000, 50000 and column keys 10000,
    40000 on three mesh points: the entries (0,0) and (1,1) fall on mesh
    point 0, the entries (0,1), with its sign flipped, and (1,0) on mesh
    point 1. *)
Lemma accumulate_adds_contributions_witness :
  measures.Z (measures.accumulate 1 (sim_measure false)) = 1%float /\
  measures.entry_of
    (measures.G_tau (measures.accumulate 1 (sim_measure false))) 0 0 0 0
    = Some (0 + 0.5 + 4)%float /\
  measures.entry_of
    (measures.G_tau (measures.accumulate 1 (sim_measure false))) 0 1 0 0
    = Some (0 + -0.25 + 2)%float.
Proof.
  destruct (accumulate_adds_contributions 1 (sim_measure false))
    as (HZ & Hadd & _).
  split; [rewrite HZ; reflexivity|].
  assert (HF : is_Some (bg_blocks (measures.F_tau (sim_measure false)) !! 0))
    by (eexists; reflexivity).
  split.
  - rewrite (Hadd 0 two_det _ eq_refl eq_refl HF 0 0 0). reflexivity.
  - rewrite (Hadd 0 two_det _ eq_refl eq_refl HF 1 0 0). reflexivity.
Defined.

(** Two workers: the peer brings 1 to [Z] and a histogram of ones.  The
    first mesh point holds 4.5 + 1, divided by [-beta * Z * delta] with
    [Z = 1 + 1] and [delta = 65535 / 2], and doubled; the middle one holds
    1.75 + 1, divided, and not doubled. *)
Lemma collect_results_pipeline_witness :
  exists G3 F3,
    measures.results
      (measures.collect_results
         (measures.accumulate 1 (sim_measure true)) peer).1
    = measures.Results (Some G3) (Some F3) /\
    measures.entry_of G3 0 0 0 0
      = Some (5.5 / (- 65535 * 2 * 32767.5) * 2)%float /\
    measures.entry_of G3 0 1 0 0
      = Some (2.75 / (- 65535 * 2 * 32767.5))%float /\
    measures.entry_of G3 0 2 0 0
      = Some (1 / (- 65535 * 2 * 32767.5) * 2)%float.
Proof.
  destruct (collect_results_pipeline
              (measures.accumulate 1 (sim_measure true)) peer)
    as (_ & (G3 & HG & HGe) & HF & _).
  destruct (HF eq_refl) as (_ & F3 & HFr & _).
  exists G3, F3. split.
  - destruct (measures.results _) as [rg rf]. cbn in HG, HFr. now subst.
  - rewrite !HGe. repeat split; reflexivity.
Defined.

(** C9, the claim as stated fails: the caller does not ask for F(tau),
    the switch is off, and yet the constructor has allocated the second
    histogram, one block of three mesh points, as it has the first. *)
Lemma F_tau_allocated_without_request :
  measures.p_measure_F_tau (sim_params false) = false /\
  measures.measure_F_tau (sim_measure false) = false /\
  bg_blocks (measures.F_tau (sim_measure false))
    = [[[[0%float]]; [[0%float]]; [[0%float]]]] /\
  ~ (bg_blocks (measures.F_tau (sim_measure false)) <> [] ->
     measures.measure_F_tau (sim_measure false) = true).
Proof.
  repeat split. intros H. discriminate H. discriminate.
Defined.

(** With the switch off, an [accumulate] and a [collect_results] leave the
    second histogram and its place in the results as they are. *)
Lemma F_tau_gated_witness :
  measures.F_tau (measures.accumulate 1 (sim_measure false))
    = measures.F_tau (sim_measure false) /\
  measures.res_F_tau
    (measures.results
       (measures.collect_results
          (measures.accumulate 1 (sim_measure false)) peer).1)
    = None.
Proof.
  destruct (F_tau_gated (sim_params false) (free_wdata [two_det])
              (Configuration tau16 []) (measures.Results None None))
    as (_ & _ & Hacc & Hoff & _).
  split.
  - apply Hacc. reflexivity.
  - destruct (Hoff (measures.accumulate 1 (sim_measure false)) peer eq_refl)
      as [-> _]. reflexivity.
Defined.

(** ** Further runs on the simulated world *)

#[export] Instance sim_segment_order : SegmentOrder Sim.sim_utils.
Proof.
  split.
  - intros a b H. cbn in *. apply Z.gtb_lt in H.
    destruct (Z.gtb_spec (tau_c b) (tau_c a)); [lia|reflexivity].
  - intros a b c H1 H2. cbn in *.
    destruct (Z.gtb_spec (tau_c a) (tau_c b)); [discriminate|].
    destruct (Z.gtb_spec (tau_c b) (tau_c c)); [discriminate|].
    destruct (Z.gtb_spec (tau_c a) (tau_c c)); [lia|reflexivity].
Qed.

#[export] Instance sim_det_grows : DetGrows Sim.sim_dets.
Proof.
  split. intros d i j x y. cbn.
  rewrite length_app. cbn. rewrite length_take, length_drop. lia.
Qed.

Lemma accepted_one_eq : moves.accept proposed_one = accepted_one.
Proof. reflexivity. Qed.

(** Color 0 holds {50000, 40000}; the accepted segment {39997, 39995}
    comes after it. *)
Lemma accept_inserts_segment_witness :
  exists r m',
    moves.accept proposed_one = moves.Returns (r, m') /\
    moves.seglist_at (moves.config m') 0
      = [Segment tau16 50000%Z 40000%Z; Segment tau16 39997%Z 39995%Z] /\
    Permutation (moves.seglist_at (moves.config m') 0)
                [Segment tau16 39997%Z 39995%Z; Segment tau16 50000%Z 40000%Z].
Proof.
  pose proof accepted_one_eq as E. unfold accepted_one in E.
  eexists _, _. split; [exact E|]. split; [reflexivity|].
  apply (accept_inserts_segment proposed_one _ _ E).
  cbn. lia.
Defined.

Lemma accept_keeps_sorted_witness :
  exists r m',
    moves.accept proposed_one = moves.Returns (r, m') /\
    moves.seg_sorted (moves.seglist_at (moves.config m') 0).
Proof.
  pose proof accepted_one_eq as E. unfold accepted_one in E.
  eexists _, _. split; [exact E|].
  apply (accept_keeps_sorted proposed_one _ _ E).
  intros [|[|c]]; cbn; repeat constructor.
Defined.

Lemma insert_into_empty_color_witness :
  exists r m',
    moves.accept proposed_empty = moves.Returns (r, m') /\
    moves.seglist_at (moves.config m') 0 = [Segment tau16 45535%Z 55535%Z].
Proof.
  pose proof accepted_empty_eq as E. unfold accepted_empty in E.
  pose proof run_empty_eq as R. unfold run_empty in R.
  eexists _, _. split; [exact E|].
  eapply (insert_into_empty_color m_empty _ _ _ _ _ R eq_refl);
    [cbn; lia|exact E].
Defined.

Lemma accepted_insert_keeps_sizes_witness :
  moves.sizes_agree (moves.config m_one) (dets (moves.wdata m_one)) /\
  exists r m',
    moves.accept proposed_one = moves.Returns (r, m') /\
    moves.sizes_agree (moves.config m') (dets (moves.wdata m')).
Proof.
  assert (H : moves.sizes_agree (moves.config m_one) (dets (moves.wdata m_one))).
  { split; [reflexivity|].
    intros [|[|c]] d Hd; cbn in Hd; try discriminate;
      injection Hd as <-; reflexivity. }
  split; [exact H|].
  pose proof accepted_one_eq as E. unfold accepted_one in E.
  pose proof run_one_eq as R. unfold run_one in R.
  eexists _, _. split; [exact E|].
  eapply (accepted_insert_keeps_sizes m_one _ _ _ _ _ H R);
    [cbn; lia|exact E].
Defined.

Lemma reject_twice_witness :
  moves.reject (moves.reject (moves.attempt m_one).2)
    = moves.reject (moves.attempt m_one).2.
Proof.
  apply reject_twice. repeat constructor.
Defined.

(** Two segments and the index 1 drawn: the window runs from the
    [tau_cdag] of the second segment to the [tau_c] of the first. *)
Lemma insertion_window_successor_witness :
  moves.insertion_window
    [Segment tau16 50000%Z 40000%Z; Segment tau16 30000%Z 20000%Z]
    ([1%Z] : @rng_t tau16 sim_rng)
  = (20000%Z, 50000%Z, []).
Proof.
  destruct (insertion_window_successor
              [Segment tau16 50000%Z 40000%Z; Segment tau16 30000%Z 20000%Z]
              ([1%Z] : @rng_t tau16 sim_rng)) as (s & s' & Hs & Hs' & ->).
  - discriminate.
  - vm_compute. lia.
  - vm_compute in Hs, Hs'. injection Hs as <-. injection Hs' as <-.
    reflexivity.
Defined.

(** The list of color 0 and the diagonal of [U] do not count. *)
Lemma ln_trace_ratio_reads_other_colors_witness :
  moves.ln_trace_ratio (free_wdata []) (Configuration tau16 [[]; []]) 0
    (Segment tau16 39997%Z 39995%Z)
  = moves.ln_trace_ratio (free_wdata [])
      (Configuration tau16 [[Segment tau16 50000%Z 40000%Z]; []]) 0
      (Segment tau16 39997%Z 39995%Z).
Proof.
  apply ln_trace_ratio_reads_other_colors; try reflexivity.
  intros [|[|c]] Hc; try reflexivity. congruence.
Defined.

(** With F(tau) measured, the scalar of [F_tau] at mesh point 0 gains the
    two values that fall there, each times the prefactor. *)
Lemma accumulate_adds_to_F_witness :
  measures.entry_of
    (measures.F_tau (measures.accumulate 1 (sim_measure true))) 0 0 0 0
  = Some (0 + 0.5 * 0 + 4 * 0)%float.
Proof.
  rewrite (accumulate_adds_to_F 1 (sim_measure true) eq_refl 0 two_det
             _ _ eq_refl eq_refl eq_refl 0 0 0).
  reflexivity.
Defined.

Lemma accumulate_without_segments_witness :
  measures.G_tau
    (measures.accumulate 1
       (measures.construct (sim_params false) (free_wdata [idle_det 1])
          (Configuration tau16 [[]]) (measures.Results None None)))
  = measures.G_tau
      (measures.construct (sim_params false) (free_wdata [idle_det 1])
         (Configuration tau16 [[]]) (measures.Results None None)).
Proof.
  apply accumulate_without_segments. repeat constructor.
Defined.

Lemma fprefactor_reads_other_colors_witness :
  measures.fprefactor (sim_measure true) 0 (20000%Z, 0)
  = measures.fprefactor
      (measures.construct (sim_params true) (free_wdata [two_det])
         (Configuration tau16 [[]]) (measures.Results None None))
      0 (20000%Z, 0).
Proof.
  apply fprefactor_reads_other_colors; try reflexivity.
  intros [|c] Hc; [|reflexivity]. exfalso. apply Hc. reflexivity.
Defined.
